(** * Treasures API: a shallow embedding of [main.py]

    The five FastAPI handlers of [main.py] are embedded as computations in a
    small state-and-exception monad over a world made of the relational store
    and the log of connection events.  The storage handle ([conn.run]) is an
    explicit parameter of every handler; [pg_run] is the model of the
    PostgreSQL tables behind it.

    Python floats are read as exact rationals, text columns are ordered
    byte by byte, and a Python [dict] with string keys is a [gmap]. *)

From Stdlib Require Import QArith Sorted.
From stdpp Require Import gmap strings list pretty sorting.

Local Open Scope string_scope.
Local Open Scope Z_scope.

(** ** Python values *)

(** What a cell of a result row, or a field of a response object, can hold.
    Python floats are modelled by exact rationals. *)
Inductive value :=
| VInt (z : Z)
| VStr (s : string)
| VFloat (q : Q).

(** A part of an f-string whose rendering is not fixed by the model
    (a float), kept symbolic. *)
Inductive fpart :=
| FLit (s : string)
| FFloat (q : Q).

(** A response object: a Python [dict] with string keys. *)
Abbreviation dict := (gmap string value).

(** A result row of [conn.run]: a Python list of cells. *)
Abbreviation row := (list value).

(** The numeric reading of a value, when it has one. *)
Definition as_number (v : value) : option Q :=
  match v with
  | VInt z => Some (inject_Z z)
  | VFloat q => Some q
  | VStr _ => None
  end.

(** [a <= b]; [None] stands for the [TypeError] of an unorderable pair. *)
Definition py_le (a b : value) : option bool :=
  match a, b with
  | VInt x, VInt y => Some (x <=? y)
  | VStr x, VStr y => Some (String.leb x y)
  | VStr _, _ | _, VStr _ => None
  | _, _ =>
      match as_number a, as_number b with
      | Some x, Some y => Some (Qle_bool x y)
      | _, _ => None
      end
  end.

(** [a >= b] *)
Definition py_ge (a b : value) : option bool := py_le b a.

(** [a == b]: never raises; values of different kinds are unequal, except
    that numbers compare by magnitude. *)
Definition py_eq (a b : value) : bool :=
  match a, b with
  | VInt x, VInt y => x =? y
  | VStr x, VStr y => String.eqb x y
  | VStr _, _ | _, VStr _ => false
  | _, _ =>
      match as_number a, as_number b with
      | Some x, Some y => Qeq_bool x y
      | _, _ => false
      end
  end.

(** Truth value of an optional integer query parameter ([None] and [0] are
    falsy). *)
Definition truthy_int (o : option Z) : bool :=
  match o with
  | Some z => negb (z =? 0)
  | None => false
  end.

(** Truth value of an optional string query parameter ([None] and the empty
    string are falsy). *)
Definition truthy_str (o : option string) : bool :=
  match o with
  | Some s => negb (String.eqb s "")
  | None => false
  end.

(** Truth value of a list (the empty list is falsy). *)
Definition truthy_list {A} (l : list A) : bool :=
  match l with
  | [] => false
  | _ :: _ => true
  end.

(** Nearest integer, ties to even. *)
Definition round_half_even (q : Q) : Z :=
  let n := Qnum q in
  let d := Zpos (Qden q) in
  let fl := n `div` d in
  let r := n `mod` d in
  if 2 * r <? d then fl
  else if d <? 2 * r then fl + 1
  else if Z.even fl then fl else fl + 1.

(** [round(q, 2)] on a float. *)
Definition round2 (q : Q) : Q :=
  Qmake (round_half_even (q * 100)%Q) 100.

(** [round(v, 2)]: an int is returned as it is, a string is a [TypeError]. *)
Definition py_round2 (v : value) : option value :=
  match v with
  | VInt z => Some (VInt z)
  | VFloat q => Some (VFloat (round2 q))
  | VStr _ => None
  end.

(** [str(z)] for an integer, as an f-string renders it. *)
Definition str_int (z : Z) : string := pretty z.

(** ** The tables *)

(** Modelled from the spec: the schema of the two tables, which the seeding
    script (not part of [main.py]) creates.  A treasure has a generated
    unique [treasure_id] and a [shop_id] that references a shop; the column
    order is the one the row mappers of the handlers index. *)
Module Treasure.
Record t := mk {
  treasure_id : Z;
  treasure_name : string;
  colour : string;
  age : Z;
  cost_at_auction : Q;
  shop_id : Z
}.

Definition set_cost (price : Q) (x : t) : t :=
  mk (treasure_id x) (treasure_name x) (colour x) (age x) price (shop_id x).

(** A row of [RETURNING *], in column order. *)
Definition to_row (x : t) : row :=
  [VInt (treasure_id x); VStr (treasure_name x); VStr (colour x);
   VInt (age x); VFloat (cost_at_auction x); VInt (shop_id x)].
End Treasure.

Module Shop.
Record t := mk {
  shop_id : Z;
  shop_name : string;
  slogan : string
}.

Definition to_row (x : t) : row :=
  [VInt (shop_id x); VStr (shop_name x); VStr (slogan x)].
End Shop.

(** Modelled from the spec: the store, made of both tables and the sequence
    that generates treasure ids. *)
Record database := mk_database {
  treasures : list Treasure.t;
  shops : list Shop.t;
  treasure_id_seq : Z
}.

(** Primary keys are unique and every treasure references a shop. *)
Definition db_wf (db : database) : Prop :=
  NoDup (Treasure.treasure_id <$> treasures db) ∧
  NoDup (Shop.shop_id <$> shops db) ∧
  ∀ x, x ∈ treasures db → Treasure.shop_id x ∈ (Shop.shop_id <$> shops db).

(** ** Statements *)

(** The seven statements the handlers send, with their parameters.  The sort
    column and direction of the listing are interpolated as text. *)
Inductive statement :=
| SelectTreasuresJoin (sort_by order : string)
| InsertTreasure (treasure_name colour : string) (age : Z)
    (cost_at_auction : Q) (shop_id : Z)
| SelectPrice (id : Z)
| UpdatePrice (price : Q) (id : Z)
| DeleteTreasure (id : Z)
| SelectShops
| SelectStockSums.

Inductive db_error :=
| ForeignKeyViolation
| UndefinedColumn (name : string)
| SyntaxError (near : string)
| OtherDatabaseError (message : string).

(** The sortable columns of the joined listing. *)
Inductive column :=
| CTreasureId | CTreasureName | CColour | CAge | CCostAtAuction | CShopName.

Definition column_of_name (s : string) : option column :=
  if String.eqb s "treasure_id" then Some CTreasureId
  else if String.eqb s "treasure_name" then Some CTreasureName
  else if String.eqb s "colour" then Some CColour
  else if String.eqb s "age" then Some CAge
  else if String.eqb s "cost_at_auction" then Some CCostAtAuction
  else if String.eqb s "shop_name" then Some CShopName
  else None.

Inductive direction := Asc | Desc.

Definition direction_of_name (s : string) : option direction :=
  if String.eqb s "asc" then Some Asc
  else if String.eqb s "desc" then Some Desc
  else None.

(** A row of [treasures JOIN shops ON treasures.shop_id = shops.shop_id]. *)
Abbreviation joined := (Treasure.t * Shop.t)%type.

Definition join (ts : list Treasure.t) (ss : list Shop.t) : list joined :=
  x ← ts;
  (λ s, (x, s)) <$> filter (λ s, Treasure.shop_id x = Shop.shop_id s) ss.

(** The six selected columns of a joined row. *)
Definition joined_to_row (p : joined) : row :=
  [VInt (Treasure.treasure_id p.1); VStr (Treasure.treasure_name p.1);
   VStr (Treasure.colour p.1); VInt (Treasure.age p.1);
   VFloat (Treasure.cost_at_auction p.1); VStr (Shop.shop_name p.2)].

(** The order of a column on joined rows (text in byte order). *)
Definition column_leb (c : column) (p1 p2 : joined) : bool :=
  match c with
  | CTreasureId => Treasure.treasure_id p1.1 <=? Treasure.treasure_id p2.1
  | CTreasureName =>
      String.leb (Treasure.treasure_name p1.1) (Treasure.treasure_name p2.1)
  | CColour => String.leb (Treasure.colour p1.1) (Treasure.colour p2.1)
  | CAge => Treasure.age p1.1 <=? Treasure.age p2.1
  | CCostAtAuction =>
      Qle_bool (Treasure.cost_at_auction p1.1) (Treasure.cost_at_auction p2.1)
  | CShopName => String.leb (Shop.shop_name p1.2) (Shop.shop_name p2.2)
  end.

Definition column_le (c : column) (d : direction) : relation joined :=
  match d with
  | Asc => λ p1 p2, column_leb c p1 p2 = true
  | Desc => λ p1 p2, column_leb c p2 p1 = true
  end.

Global Instance column_le_dec c d p1 p2 : Decision (column_le c d p1 p2).
Proof. destruct d; simpl; apply _. Defined.

(** [ORDER BY c d] *)
Definition order_by (c : column) (d : direction) (l : list joined)
    : list joined :=
  merge_sort (column_le c d) l.

(** [SUM(cost_at_auction)] over some treasures. *)
Definition sum_cost (ts : list Treasure.t) : Q :=
  foldr (λ x acc, (Treasure.cost_at_auction x + acc)%Q) 0%Q ts.

Definition treasures_of_shop (sid : Z) (ts : list Treasure.t)
    : list Treasure.t :=
  filter (λ x, Treasure.shop_id x = sid) ts.

(** [SELECT shop_id, SUM(cost_at_auction) FROM treasures GROUP BY shop_id]:
    one row per shop id that occurs in the table. *)
Definition stock_sums (ts : list Treasure.t) : list row :=
  (λ sid, [VInt sid; VFloat (sum_cost (treasures_of_shop sid ts))])
    <$> remove_dups (Treasure.shop_id <$> ts).

Definition has_id (id : Z) (x : Treasure.t) : Prop :=
  Treasure.treasure_id x = id.

Global Instance has_id_dec id x : Decision (has_id id x).
Proof. unfold has_id; apply _. Defined.

(** Modelled from the spec: the PostgreSQL store behind [conn.run], as the
    rows a statement returns, or the error it raises, and the store
    afterwards.  Statements are committed one by one; an insert whose
    [shop_id] references no shop is rejected with a foreign-key violation;
    rows of equal sort key come in the order the merge leaves them. *)
Definition pg_run (q : statement) (db : database)
    : (list row + db_error) * database :=
  match q with
  | SelectTreasuresJoin sort_by order =>
      match column_of_name sort_by, direction_of_name order with
      | Some c, Some d =>
          (inl (joined_to_row <$> order_by c d (join (treasures db) (shops db))),
           db)
      | None, _ => (inr (UndefinedColumn sort_by), db)
      | _, None => (inr (SyntaxError order), db)
      end
  | InsertTreasure name colour age cost sid =>
      (* the sequence is advanced even when the insert is rejected *)
      let id := treasure_id_seq db in
      if bool_decide (sid ∈ (Shop.shop_id <$> shops db)) then
        let x := Treasure.mk id name colour age cost sid in
        (inl [Treasure.to_row x],
         mk_database (treasures db ++ [x]) (shops db) (id + 1))
      else
        (inr ForeignKeyViolation,
         mk_database (treasures db) (shops db) (id + 1))
  | SelectPrice id =>
      (inl ((λ x, [VFloat (Treasure.cost_at_auction x)])
              <$> filter (has_id id) (treasures db)),
       db)
  | UpdatePrice price id =>
      (inl (Treasure.to_row ∘ Treasure.set_cost price
              <$> filter (has_id id) (treasures db)),
       mk_database
         ((λ x, if decide (has_id id x) then Treasure.set_cost price x else x)
            <$> treasures db)
         (shops db) (treasure_id_seq db))
  | DeleteTreasure id =>
      (inl (Treasure.to_row <$> filter (has_id id) (treasures db)),
       mk_database (filter (λ x, ¬ has_id id x) (treasures db))
         (shops db) (treasure_id_seq db))
  | SelectShops => (inl (Shop.to_row <$> shops db), db)
  | SelectStockSums => (inl (stock_sums (treasures db)), db)
  end.

(** ** Exceptions, the world and the handler monad *)

Inductive exn :=
| HTTPException (status_code : Z) (detail : string)
| ValueError (message : list fpart)
| IndexError
| KeyError (key : string)
| TypeError
| DatabaseError (e : db_error).

(** What a handler does to the outside, in order. *)
Inductive event :=
| Connect
| Run (q : statement)
| Close
| Stdout (line : string).

Record world := mk_world {
  w_db : database;
  w_log : list event
}.

Inductive outcome (A : Type) :=
| Ok (a : A)
| Raise (e : exn).
Arguments Ok {A} a.
Arguments Raise {A} e.

(** A handler body: it runs in a world, returns or raises, and leaves a
    world. *)
Definition M (A : Type) : Type := world → outcome A * world.

Definition ret {A} (a : A) : M A := λ w, (Ok a, w).

Definition raise {A} (e : exn) : M A := λ w, (Raise e, w).

Definition bind {A B} (m : M A) (k : A → M B) : M B :=
  λ w, match m w with
       | (Ok a, w') => k a w'
       | (Raise e, w') => (Raise e, w')
       end.

Notation "x <- c ;; k" := (bind c (λ x, k))
  (at level 100, c at next level, right associativity).
Notation "c ;; k" := (bind c (λ _, k))
  (at level 100, right associativity).

(** [try: body except <handled>: ... finally: final].  [handler e] is the
    except clause that matches [e], if one does. *)
Definition try_except_finally {A} (body : M A)
    (handler : exn → option (M A)) (final : M unit) : M A :=
  λ w,
    let '(r, w1) :=
      match body w with
      | (Ok a, w') => (Ok a, w')
      | (Raise e, w') =>
          match handler e with
          | Some h => h w'
          | None => (Raise e, w')
          end
      end in
    match final w1 with
    | (Ok _, w2) => (r, w2)
    | (Raise e, w2) => (Raise e, w2)
    end.

(** [l[i]] *)
Definition subscript {A} (l : list A) (i : nat) : M A :=
  match l !! i with
  | Some a => ret a
  | None => raise IndexError
  end.

(** [d[k]] *)
Definition getitem (d : dict) (k : string) : M value :=
  match d !! k with
  | Some v => ret v
  | None => raise (KeyError k)
  end.

(** An operator that raises [TypeError] on operands it does not accept. *)
Definition typed {A} (o : option A) : M A :=
  match o with
  | Some a => ret a
  | None => raise TypeError
  end.

(** [[f(x) for x in l]] *)
Fixpoint comprehension {A B} (f : A → M B) (l : list A) : M (list B) :=
  match l with
  | [] => ret []
  | x :: l' =>
      y <- f x;;
      ys <- comprehension f l';;
      ret (y :: ys)
  end.

(** [[x for x in l if p(x)]] *)
Fixpoint comprehension_if {A} (p : A → M bool) (l : list A) : M (list A) :=
  match l with
  | [] => ret []
  | x :: l' =>
      b <- p x;;
      xs <- comprehension_if p l';;
      ret (if b then x :: xs else xs)
  end.

(** [for x in l: acc = body(acc, x)] *)
Fixpoint for_each {A S} (body : S → A → M S) (acc : S) (l : list A) : M S :=
  match l with
  | [] => ret acc
  | x :: l' =>
      acc' <- body acc x;;
      for_each body acc' l'
  end.

(** How an interpolated value is rendered in an f-string. *)
Definition format_value (v : value) : fpart :=
  match v with
  | VInt z => FLit (str_int z)
  | VStr s => FLit s
  | VFloat q => FFloat q
  end.

(** The connection handle; a handler holds at most one. *)
Inductive connection := Conn.

Definition log (e : event) (w : world) : world :=
  mk_world (w_db w) (w_log w ++ [e]).

(** Modelled from the spec: [connect_to_db()] of [db.connection], a
    connection provider that returns a live storage handle. *)
Definition connect_to_db : M connection := λ w, (Ok Conn, log Connect w).

(** [conn.close()] *)
Definition conn_close (conn : connection) : M unit :=
  λ w, (Ok (), log Close w).

(** [print(line)] *)
Definition print (line : string) : M unit :=
  λ w, (Ok (), log (Stdout line) w).

(** ** The request models and the module constants *)

Module NewTreasure.
Record t := mk {
  treasure_name : string;
  colour : string;
  age : Z;
  cost_at_auction : Q;
  shop_id : Z
}.
End NewTreasure.

Module NewPrice.
Record t := mk { cost_at_auction : Q }.
End NewPrice.

Definition treasures_columns : list string :=
  ["treasure_id"; "treasure_name"; "colour";
   "age"; "cost_at_auction"; "shop_name"].

Definition order_options : list string := ["asc"; "desc"].

(** ** The handlers *)

Section handlers.
(** The storage behind the handle: what [conn.run] answers to a statement
    in a given store. *)
Variable run : statement → database → (list row + db_error) * database.

(** [conn.run(q)] *)
Definition conn_run (conn : connection) (q : statement) : M (list row) :=
  λ w,
    match run q (w_db w) with
    | (inl rows, db') => (Ok rows, mk_world db' (w_log w ++ [Run q]))
    | (inr e, db') =>
        (Raise (DatabaseError e), mk_world db' (w_log w ++ [Run q]))
    end.

Definition get_treasures (sort_by order : string) (colour : option string)
    (max_age min_age : option Z) : M (gmap string (list dict)) :=
  if negb (bool_decide (sort_by ∈ treasures_columns)) then
    raise (HTTPException 422 ("Invalid sort field: " +:+ sort_by))
  else if negb (bool_decide (order ∈ order_options)) then
    raise (HTTPException 422 ("Invalid order field: " +:+ order))
  else
    conn <- connect_to_db;;
    treasures <- conn_run conn (SelectTreasuresJoin sort_by order);;
    data <- comprehension (λ treasure : row,
              c0 <- subscript treasure 0;;
              c1 <- subscript treasure 1;;
              c2 <- subscript treasure 2;;
              c3 <- subscript treasure 3;;
              c4 <- subscript treasure 4;;
              c5 <- subscript treasure 5;;
              ret ({[ "treasure_id" := c0;
                      "treasure_name" := c1;
                      "colour" := c2;
                      "age" := c3;
                      "cost_at_auction" := c4;
                      "shop_name" := c5 ]} : dict)) treasures;;
    data <- (if truthy_int min_age then
               (* under the guard, the parameter is an int *)
               comprehension_if (λ treasure : dict,
                 a <- getitem treasure "age";;
                 typed (py_ge a (VInt (default 0 min_age)))) data
             else ret data);;
    data <- (if truthy_int max_age then
               comprehension_if (λ treasure : dict,
                 a <- getitem treasure "age";;
                 typed (py_le a (VInt (default 0 max_age)))) data
             else ret data);;
    data <- (if truthy_str colour then
               comprehension_if (λ treasure : dict,
                 c <- getitem treasure "colour";;
                 ret (py_eq c (VStr (default "" colour)))) data
             else ret data);;
    let response : gmap string (list dict) := {[ "treasures" := data ]} in
    conn_close conn;;
    ret response.

Definition post_treasure (new_treasure : NewTreasure.t)
    : M (gmap string dict) :=
  try_except_finally
    (conn <- connect_to_db;;
     new_query <- conn_run conn
       (InsertTreasure
          (NewTreasure.treasure_name new_treasure)
          (NewTreasure.colour new_treasure)
          (NewTreasure.age new_treasure)
          (NewTreasure.cost_at_auction new_treasure)
          (NewTreasure.shop_id new_treasure));;
     c0 <- (r <- subscript new_query 0;; subscript r 0);;
     c1 <- (r <- subscript new_query 0;; subscript r 1);;
     c2 <- (r <- subscript new_query 0;; subscript r 2);;
     c3 <- (r <- subscript new_query 0;; subscript r 3);;
     c4 <- (r <- subscript new_query 0;; subscript r 4);;
     c5 <- (r <- subscript new_query 0;; subscript r 5);;
     let response : gmap string dict :=
       {[ "treasure" := {[ "treasure_id" := c0;
                           "treasure_name" := c1;
                           "colour" := c2;
                           "age" := c3;
                           "cost_at_auction" := c4;
                           "shop_id" := c5 ]} ]} in
     ret response)
    (λ e, match e with
          | DatabaseError dberror =>
              Some (raise (HTTPException 422
                ("shop id " +:+ str_int (NewTreasure.shop_id new_treasure)
                   +:+ " is out of range")))
          | _ => None
          end)
    (conn_close Conn).

Definition patch_treasure (treasure_id : Z) (new_price : NewPrice.t)
    : M unit :=
  conn <- connect_to_db;;
  get_current_price <- conn_run conn (SelectPrice treasure_id);;
  current <- (r <- subscript get_current_price 0;; subscript r 0);;
  not_lower <-
    typed (py_ge (VFloat (NewPrice.cost_at_auction new_price)) current);;
  if (not_lower : bool) then
    shown <- (r <- subscript get_current_price 0;; subscript r 0);;
    raise (ValueError [FLit "The current price is "; format_value shown;
                       FLit ", please enter a lower price"])
  else
    set_new_price <- conn_run conn
      (UpdatePrice (NewPrice.cost_at_auction new_price) treasure_id);;
    conn_close conn.

Definition delete_treasure (treasure_id : Z) : M unit :=
  conn <- connect_to_db;;
  deleted <- conn_run conn (DeleteTreasure treasure_id);;
  if negb (truthy_list deleted) then
    raise (ValueError
      [FLit ("There is no treasure with id " +:+ str_int treasure_id)])
  else
    print ("treasure " +:+ str_int treasure_id +:+ " has been deleted");;
    conn_close conn;;
    ret ().

Definition get_shops : M (gmap string (list dict)) :=
  conn <- connect_to_db;;
  shops <- conn_run conn SelectShops;;
  treasures_cost <- conn_run conn SelectStockSums;;
  response <- for_each (λ (response : list dict) (shop : row),
      s0 <- subscript shop 0;;
      s1 <- subscript shop 1;;
      s2 <- subscript shop 2;;
      let new_shop : dict :=
        {[ "shop_id" := s0; "shop_name" := s1; "slogan" := s2 ]} in
      new_shop <- for_each (λ (new_shop : dict) (stock : row),
          k <- subscript stock 0;;
          sid <- getitem new_shop "shop_id";;
          if py_eq k sid then
            total <- subscript stock 1;;
            rounded <- typed (py_round2 total);;
            ret (<[ "stock value" := rounded ]> new_shop)
          else ret new_shop) new_shop treasures_cost;;
      ret (response ++ [new_shop])%list) [] shops;;
  let response : gmap string (list dict) := {[ "shops" := response ]} in
  conn_close conn;;
  ret response.
End handlers.

(** ** The routes *)

(** What the client of a route gets. *)
Inductive http_result (A : Type) :=
| Response (status_code : Z) (body : A)
| ErrorResponse (status_code : Z) (detail : string)
| Unhandled (e : exn).
Arguments Response {A} status_code body.
Arguments ErrorResponse {A} status_code detail.
Arguments Unhandled {A} e.

(** The framework around a handler: the route's status code on return, the
    status and detail of an [HTTPException], and any other exception left
    unhandled. *)
Definition route {A} (status_code : Z) (handler : M A)
    : world → http_result A * world :=
  λ w, match handler w with
       | (Ok body, w') => (Response status_code body, w')
       | (Raise (HTTPException status detail), w') =>
           (ErrorResponse status detail, w')
       | (Raise e, w') => (Unhandled e, w')
       end.

Section routes.
Variable run : statement → database → (list row + db_error) * database.

(** [@app.get("/api/treasures")], with the defaults of the query
    parameters. *)
Definition GET_api_treasures (sort_by order colour : option string)
    (max_age min_age : option Z) :=
  route 200 (get_treasures run (default "age" sort_by)
               (default "asc" order) colour max_age min_age).

(** [@app.post("/api/treasures", status_code=201)] *)
Definition POST_api_treasures (new_treasure : NewTreasure.t) :=
  route 201 (post_treasure run new_treasure).

(** [@app.patch("/api/treasures/{treasure_id}", status_code=204)] *)
Definition PATCH_api_treasures (treasure_id : Z) (new_price : NewPrice.t) :=
  route 204 (patch_treasure run treasure_id new_price).

(** [@app.delete("/api/treasures/{treasure_id}", status_code=204)] *)
Definition DELETE_api_treasures (treasure_id : Z) :=
  route 204 (delete_treasure run treasure_id).

(** [@app.get("/api/shops")] *)
Definition GET_api_shops := route 200 (get_shops run).
End routes.

(** ** What the claims speak of *)

(** The response object of a joined row of the listing. *)
Definition joined_to_dict (p : joined) : dict :=
  {[ "treasure_id" := VInt (Treasure.treasure_id p.1);
     "treasure_name" := VStr (Treasure.treasure_name p.1);
     "colour" := VStr (Treasure.colour p.1);
     "age" := VInt (Treasure.age p.1);
     "cost_at_auction" := VFloat (Treasure.cost_at_auction p.1);
     "shop_name" := VStr (Shop.shop_name p.2) ]}.

(** A joined row passes every filter that was supplied: exact colour,
    inclusive age bounds. *)
Definition satisfies (colour : option string) (max_age min_age : option Z)
    (p : joined) : bool :=
  match min_age with Some a => a <=? Treasure.age p.1 | None => true end
  && match max_age with Some a => Treasure.age p.1 <=? a | None => true end
  && match colour with
     | Some c => String.eqb (Treasure.colour p.1) c
     | None => true
     end.

(** A joined row passes the filters that the listing applies: those whose
    parameter is truthy. *)
Definition kept (colour : option string) (max_age min_age : option Z)
    (p : joined) : bool :=
  (if truthy_int min_age then default 0 min_age <=? Treasure.age p.1
   else true)
  && (if truthy_int max_age then Treasure.age p.1 <=? default 0 max_age
      else true)
  && (if truthy_str colour
      then String.eqb (Treasure.colour p.1) (default "" colour)
      else true).




(** The entry of a shop in the shops listing, given the treasures table. *)
Definition shop_entry (ts : list Treasure.t) (s : Shop.t) : dict :=
  let new_shop : dict :=
    {[ "shop_id" := VInt (Shop.shop_id s);
       "shop_name" := VStr (Shop.shop_name s);
       "slogan" := VStr (Shop.slogan s) ]} in
  if bool_decide (Shop.shop_id s ∈ (Treasure.shop_id <$> ts)) then
    <[ "stock value" :=
         VFloat (round2 (sum_cost (treasures_of_shop (Shop.shop_id s) ts))) ]>
      new_shop
  else new_shop.

(** What the listing returns for a valid query: the ordered join, cut down
    by the filters the handler applies. *)
Definition listing (c : column) (d : direction) (colour : option string)
    (max_age min_age : option Z) (db : database) : list joined :=
  filter (λ p, kept colour max_age min_age p = true)
    (order_by c d (join (treasures db) (shops db))).

(** The statement the create handler sends for a payload. *)
Definition insert_statement (new_treasure : NewTreasure.t) : statement :=
  InsertTreasure
    (NewTreasure.treasure_name new_treasure)
    (NewTreasure.colour new_treasure)
    (NewTreasure.age new_treasure)
    (NewTreasure.cost_at_auction new_treasure)
    (NewTreasure.shop_id new_treasure).

(** A storage that answers every statement with the error [e]. *)
Definition failing_run (e : db_error)
    : statement → database → (list row + db_error) * database :=
  λ _ db, (inr e, db).

(** The number of connections a log leaves open. *)
Fixpoint open_connections (l : list event) : Z :=
  match l with
  | [] => 0
  | Connect :: l' => open_connections l' + 1
  | Close :: l' => open_connections l' - 1
  | _ :: l' => open_connections l'
  end.

(** A log holds an [UPDATE] statement. *)
Definition ran_update (l : list event) : Prop :=
  ∃ price id, Run (UpdatePrice price id) ∈ l.

(** A small seeded store for the examples: three treasures, three shops. *)
Definition example_db : database :=
  mk_database
    [Treasure.mk 1 "Ring" "gold" 5 (20 # 1) 1;
     Treasure.mk 2 "Coin" "silver" 0 (1995 # 100) 2;
     Treasure.mk 3 "Fork" "silver" 13 (1 # 3) 1]
    [Shop.mk 1 "Alpha" "a"; Shop.mk 2 "Beta" "b"; Shop.mk 3 "Gamma" "c"]
    4.

Definition example_world : world := mk_world example_db [].

(** The store is well formed and its id sequence is ahead of every id in
    use. *)
Definition store_ok (db : database) : Prop :=
  db_wf db
  ∧ ∀ x, x ∈ treasures db → Treasure.treasure_id x < treasure_id_seq db.

(** * Properties *)

(** ** The column orders *)

Lemma string_leb_trans s1 s2 s3 :
  String.leb s1 s2 = true → String.leb s2 s3 = true →
  String.leb s1 s3 = true.
Proof.
  unfold String.leb. revert s2 s3.
  induction s1 as [|a s1 IH]; intros [|b s2] [|c s3]; simpl; try done.
  unfold Ascii.compare.
  destruct (N.compare_spec (Ascii.N_of_ascii a) (Ascii.N_of_ascii b))
    as [Hab|Hab|Hab],
    (N.compare_spec (Ascii.N_of_ascii b) (Ascii.N_of_ascii c))
    as [Hbc|Hbc|Hbc],
    (N.compare_spec (Ascii.N_of_ascii a) (Ascii.N_of_ascii c))
    as [Hac|Hac|Hac];
    try done; try lia.
  apply IH.
Qed.

Lemma Qle_bool_total x y : Qle_bool x y = true ∨ Qle_bool y x = true.
Proof.
  rewrite !Qle_bool_iff.
  destruct (Qlt_le_dec x y) as [H|H]; [left|right];
    [by apply Qlt_le_weak|done].
Qed.

Lemma Qle_bool_trans x y z :
  Qle_bool x y = true → Qle_bool y z = true → Qle_bool x z = true.
Proof. rewrite !Qle_bool_iff. apply Qle_trans. Qed.

Global Instance column_le_total c d : Total (column_le c d).
Proof.
  intros p1 p2. destruct d, c; simpl;
    first [ apply String.leb_total | apply Qle_bool_total
          | rewrite !Z.leb_le; lia ].
Qed.

Global Instance column_le_trans c d : Transitive (column_le c d).
Proof.
  intros p1 p2 p3. destruct d, c; simpl;
    eauto using string_leb_trans, Qle_bool_trans;
    rewrite !Z.leb_le; lia.
Qed.

(** ** Lists *)

Section list_facts.
Context {A : Type}.


Lemma filter_all (P : A → Prop) `{∀ x, Decision (P x)} (l : list A) :
  (∀ x, P x) → filter P l = l.
Proof.
  intros HP. induction l as [|x l IH]; [done|].
  by rewrite filter_cons_True, IH.
Qed.

Lemma filter_guarded (guard : bool) (q : A → bool) (l : list A) :
  (if guard then filter (λ x, q x = true) l else l) =
  filter (λ x, (if guard then q x else true) = true) l.
Proof. destruct guard; [done|]. by rewrite filter_all. Qed.

Lemma length_filter_complement (P : A → Prop) `{∀ x, Decision (P x)}
    (l : list A) :
  (length (filter P l) + length (filter (λ x, ¬ P x) l))%nat = length l.
Proof. by rewrite <-length_app, filter_app_complement. Qed.

Lemma filter_key_nil (f : A → Z) (k : Z) (l : list A) :
  k ∉ (f <$> l) → filter (λ s, k = f s) l = [].
Proof.
  induction l as [|y l IH]; [done|]. rewrite fmap_cons, not_elem_of_cons.
  intros [Hne Hni]. rewrite filter_cons_False by done. by apply IH.
Qed.

Lemma length_filter_key (f : A → Z) (k : Z) (l : list A) :
  NoDup (f <$> l) → k ∈ (f <$> l) →
  length (filter (λ s, k = f s) l) = 1%nat.
Proof.
  induction l as [|y l IH]; [by intros _ ?%elem_of_nil|].
  rewrite fmap_cons, NoDup_cons, elem_of_cons. intros [Hy Hnd] [->|Hk].
  - rewrite filter_cons_True by done. by rewrite filter_key_nil.
  - rewrite filter_cons_False; [by apply IH|]. by intros ->.
Qed.
End list_facts.

Lemma filter_has_id_nil id (ts : list Treasure.t) :
  id ∉ (Treasure.treasure_id <$> ts) → filter (has_id id) ts = [].
Proof.
  induction ts as [|y ts IH]; [done|]. rewrite fmap_cons, not_elem_of_cons.
  intros [Hne Hni]. rewrite filter_cons_False; [by apply IH|].
  unfold has_id. congruence.
Qed.

Lemma filter_has_id_unique (ts : list Treasure.t) x :
  NoDup (Treasure.treasure_id <$> ts) → x ∈ ts →
  filter (has_id (Treasure.treasure_id x)) ts = [x].
Proof.
  induction ts as [|y ts IH]; [by intros _ ?%elem_of_nil|].
  rewrite fmap_cons, NoDup_cons, elem_of_cons. intros [Hy Hnd] [->|Hx].
  - rewrite filter_cons_True by done. by rewrite filter_has_id_nil.
  - rewrite filter_cons_False; [by apply IH|].
    unfold has_id. intros Heq. apply Hy. rewrite Heq.
    apply list_elem_of_fmap. eauto.
Qed.

Lemma filter_not_has_id_all id (ts : list Treasure.t) :
  id ∉ (Treasure.treasure_id <$> ts) → filter (λ x, ¬ has_id id x) ts = ts.
Proof.
  induction ts as [|y ts IH]; [done|]. rewrite fmap_cons, not_elem_of_cons.
  intros [Hne Hni]. rewrite filter_cons_True; [by rewrite IH|].
  unfold has_id. congruence.
Qed.

Lemma length_join_fk (ts : list Treasure.t) (ss : list Shop.t) :
  NoDup (Shop.shop_id <$> ss) →
  (∀ x, x ∈ ts → Treasure.shop_id x ∈ (Shop.shop_id <$> ss)) →
  length (join ts ss) = length ts.
Proof.
  intros Hnd. unfold join. induction ts as [|x ts IH]; intros Hfk; [done|].
  rewrite bind_cons, length_app, length_fmap.
  rewrite (length_filter_key Shop.shop_id) by (done || apply Hfk; left).
  rewrite IH; [done|]. intros y Hy. apply Hfk. by right.
Qed.

Lemma open_connections_app l1 l2 :
  open_connections (l1 ++ l2) = open_connections l1 + open_connections l2.
Proof. induction l1 as [|[] l1 IH]; simpl; lia. Qed.

(** ** The handler monad *)

Lemma bind_ok {A B} (m : M A) (k : A → M B) w a w' :
  m w = (Ok a, w') → bind m k w = k a w'.
Proof. unfold bind. by intros ->. Qed.

Lemma comprehension_fmap {A B C} (h : A → B) (f : B → M C) (g : A → C) l w :
  (∀ x w', f (h x) w' = (Ok (g x), w')) →
  comprehension f (h <$> l) w = (Ok (g <$> l), w).
Proof.
  intros Hf. induction l as [|x l IH]; [done|]. simpl.
  by rewrite (bind_ok _ _ _ _ _ (Hf x w)), (bind_ok _ _ _ _ _ IH).
Qed.

Lemma comprehension_if_fmap {A B} (h : A → B) (p : B → M bool)
    (q : A → bool) l w :
  (∀ x w', p (h x) w' = (Ok (q x), w')) →
  comprehension_if p (h <$> l) w =
    (Ok (h <$> filter (λ x, q x = true) l), w).
Proof.
  intros Hp. induction l as [|x l IH]; [done|]. simpl.
  rewrite (bind_ok _ _ _ _ _ (Hp x w)), (bind_ok _ _ _ _ _ IH).
  rewrite filter_cons. unfold ret. by destruct (q x).
Qed.

Lemma guarded_filter {A B} (h : A → B) (guard : bool) (p : B → M bool)
    (q : A → bool) l w :
  (∀ x w', p (h x) w' = (Ok (q x), w')) →
  (if guard then comprehension_if p (h <$> l) else ret (h <$> l)) w =
    (Ok (h <$> filter (λ x, (if guard then q x else true) = true) l), w).
Proof.
  intros Hp. rewrite <-filter_guarded. destruct guard; [|done].
  by apply comprehension_if_fmap.
Qed.

(** Open the connection and send the first statement. *)
Ltac connect_and_run :=
  unfold bind at 1; unfold connect_to_db at 1;
  unfold bind at 1; unfold conn_run at 1;
  cbn [pg_run log w_db w_log].

(** ** The listing on the PostgreSQL store *)

Lemma column_of_name_elem sort_by :
  sort_by ∈ treasures_columns → is_Some (column_of_name sort_by).
Proof.
  unfold treasures_columns. rewrite !elem_of_cons, elem_of_nil.
  intros [->|[->|[->|[->|[->|[->|[]]]]]]]; by eexists.
Qed.

Lemma direction_of_name_elem order :
  order ∈ order_options → is_Some (direction_of_name order).
Proof.
  unfold order_options. rewrite !elem_of_cons, elem_of_nil.
  intros [->|[->|[]]]; by eexists.
Qed.

Lemma row_mapper_joined p w :
  (c0 <- subscript (joined_to_row p) 0;;
   c1 <- subscript (joined_to_row p) 1;;
   c2 <- subscript (joined_to_row p) 2;;
   c3 <- subscript (joined_to_row p) 3;;
   c4 <- subscript (joined_to_row p) 4;;
   c5 <- subscript (joined_to_row p) 5;;
   ret ({[ "treasure_id" := c0; "treasure_name" := c1; "colour" := c2;
           "age" := c3; "cost_at_auction" := c4; "shop_name" := c5 ]} : dict))
    w = (Ok (joined_to_dict p), w).
Proof. reflexivity. Qed.

Lemma get_treasures_pg sort_by order c d colour max_age min_age w :
  sort_by ∈ treasures_columns → order ∈ order_options →
  column_of_name sort_by = Some c → direction_of_name order = Some d →
  get_treasures pg_run sort_by order colour max_age min_age w =
    (Ok {[ "treasures" :=
             joined_to_dict <$> listing c d colour max_age min_age (w_db w) ]},
     mk_world (w_db w)
       (w_log w ++ [Connect; Run (SelectTreasuresJoin sort_by order); Close])).
Proof.
  intros Hs Ho Hc Hd. unfold get_treasures.
  rewrite !bool_decide_eq_true_2 by done. cbn [negb].
  connect_and_run. rewrite Hc, Hd.
  set (l := order_by c d _).
  erewrite bind_ok; last first.
  { eapply (comprehension_fmap joined_to_row _ joined_to_dict).
    intros x w'. apply row_mapper_joined. }
  erewrite bind_ok; last first.
  { eapply (guarded_filter joined_to_dict _ _
             (λ p, default 0 min_age <=? Treasure.age p.1)).
    intros x w'. reflexivity. }
  erewrite bind_ok; last first.
  { eapply (guarded_filter joined_to_dict _ _
             (λ p, Treasure.age p.1 <=? default 0 max_age)).
    intros x w'. reflexivity. }
  erewrite bind_ok; last first.
  { eapply (guarded_filter joined_to_dict _ _
             (λ p, String.eqb (Treasure.colour p.1) (default "" colour))).
    intros x w'. reflexivity. }
  unfold bind, conn_close, ret, log. cbn [w_db w_log].
  rewrite <-!app_assoc. simpl app. do 3 f_equal.
  unfold listing. fold l. rewrite !list_filter_filter.
  f_equal. apply list_filter_iff. intros p. unfold kept.
  rewrite !andb_true_iff. tauto.
Qed.




Lemma length_listing_unfiltered c d db :
  NoDup (Shop.shop_id <$> shops db) →
  (∀ x, x ∈ treasures db → Treasure.shop_id x ∈ (Shop.shop_id <$> shops db)) →
  length (listing c d None None None db) = length (treasures db).
Proof.
  intros Hss Hfk. unfold listing, order_by.
  rewrite filter_all by done.
  rewrite merge_sort_Permutation. by apply length_join_fk.
Qed.

Lemma kept_satisfies colour max_age min_age p :
  min_age ≠ Some 0 → max_age ≠ Some 0 → colour ≠ Some "" →
  kept colour max_age min_age p = satisfies colour max_age min_age p.
Proof.
  intros Hmin Hmax Hcol. unfold kept, satisfies.
  destruct min_age as [a|]; [destruct (Z.eqb_spec a 0); [naive_solver|]|];
  destruct max_age as [b|]; try (destruct (Z.eqb_spec b 0); [naive_solver|]);
  destruct colour as [s|]; try (destruct (String.eqb_spec s ""); [naive_solver|]);
  simpl; rewrite ?(proj2 (Z.eqb_neq _ _)), ?(proj2 (String.eqb_neq _ _)) by done;
  done.
Qed.

(** ** The shops listing on the PostgreSQL store *)

Lemma stock_loop (f : Z → Q) (sid : Z) (sids : list Z) (new_shop : dict) w :
  new_shop !! "shop_id" = Some (VInt sid) →
  for_each (λ (new_shop : dict) (stock : row),
      k <- subscript stock 0;;
      sid <- getitem new_shop "shop_id";;
      if py_eq k sid then
        total <- subscript stock 1;;
        rounded <- typed (py_round2 total);;
        ret (<[ "stock value" := rounded ]> new_shop)
      else ret new_shop)
    new_shop ((λ k, [VInt k; VFloat (f k)]) <$> sids) w =
  (Ok (if bool_decide (sid ∈ sids)
       then <[ "stock value" := VFloat (round2 (f sid)) ]> new_shop
       else new_shop), w).
Proof.
  revert new_shop. induction sids as [|k sids IH]; intros new_shop Hid; [done|].
  rewrite fmap_cons. cbn [for_each].
  unfold bind at 1. unfold bind at 1. cbn [subscript lookup list_lookup ret].
  unfold bind at 1. unfold getitem at 1. rewrite Hid. unfold ret at 1.
  cbn [py_eq]. destruct (Z.eqb_spec k sid) as [->|Hne].
  - unfold bind at 1. cbn [subscript lookup list_lookup ret].
    unfold bind at 1. cbn [py_round2 typed ret].
    rewrite IH by (by rewrite lookup_insert_ne).
    rewrite (bool_decide_eq_true_2 (sid ∈ sid :: sids)) by apply list_elem_of_here.
    case_bool_decide; [by rewrite insert_insert_eq|done].
  - unfold ret at 1. rewrite IH by done.
    rewrite (bool_decide_ext (sid ∈ k :: sids) (sid ∈ sids)); [done|].
    rewrite elem_of_cons. split; [by intros [->|?]|by right].
Qed.

Lemma stock_loop_sums (ts : list Treasure.t) (sid : Z) (new_shop : dict) w :
  new_shop !! "shop_id" = Some (VInt sid) →
  for_each (λ (new_shop : dict) (stock : row),
      k <- subscript stock 0;;
      sid <- getitem new_shop "shop_id";;
      if py_eq k sid then
        total <- subscript stock 1;;
        rounded <- typed (py_round2 total);;
        ret (<[ "stock value" := rounded ]> new_shop)
      else ret new_shop)
    new_shop (stock_sums ts) w =
  (Ok (if bool_decide (sid ∈ (Treasure.shop_id <$> ts))
       then <[ "stock value" :=
                 VFloat (round2 (sum_cost (treasures_of_shop sid ts))) ]>
              new_shop
       else new_shop), w).
Proof.
  intros Hid. unfold stock_sums.
  rewrite (stock_loop (λ sid, sum_cost (treasures_of_shop sid ts)) sid)
    by done.
  by rewrite (bool_decide_ext _ _ (elem_of_remove_dups _ sid)).
Qed.

Lemma shops_loop (ts : list Treasure.t) (ss : list Shop.t)
    (response : list dict) w :
  for_each (λ (response : list dict) (shop : row),
      s0 <- subscript shop 0;;
      s1 <- subscript shop 1;;
      s2 <- subscript shop 2;;
      let new_shop : dict :=
        {[ "shop_id" := s0; "shop_name" := s1; "slogan" := s2 ]} in
      new_shop <- for_each (λ (new_shop : dict) (stock : row),
          k <- subscript stock 0;;
          sid <- getitem new_shop "shop_id";;
          if py_eq k sid then
            total <- subscript stock 1;;
            rounded <- typed (py_round2 total);;
            ret (<[ "stock value" := rounded ]> new_shop)
          else ret new_shop) new_shop (stock_sums ts);;
      ret (response ++ [new_shop])%list)
    response (Shop.to_row <$> ss) w =
  (Ok (response ++ (shop_entry ts <$> ss))%list, w).
Proof.
  cbv zeta. revert response. induction ss as [|s ss IH]; intros response.
  { simpl. by rewrite app_nil_r. }
  rewrite fmap_cons. cbn [for_each].
  unfold bind at 1. unfold bind at 1. cbn [subscript lookup list_lookup ret Shop.to_row].
  unfold bind at 1. unfold bind at 1. unfold bind at 1. cbn [ret].
  rewrite (stock_loop_sums ts (Shop.shop_id s)) by done.
  cbn [ret]. rewrite IH. by rewrite <-app_assoc.
Qed.

Lemma get_shops_pg w :
  get_shops pg_run w =
    (Ok {[ "shops" := shop_entry (treasures (w_db w)) <$> shops (w_db w) ]},
     mk_world (w_db w)
       (w_log w ++ [Connect; Run SelectShops; Run SelectStockSums; Close])).
Proof.
  unfold get_shops.
  connect_and_run.
  unfold bind at 1. unfold conn_run at 1. cbn [pg_run log w_db w_log].
  cbv zeta. erewrite bind_ok by apply shops_loop.
  unfold bind, conn_close, ret, log. cbn [w_db w_log].
  by rewrite <-!app_assoc.
Qed.

(** ** Create, update and delete *)

Lemma post_treasure_rejected run new_treasure w e db' :
  run (insert_statement new_treasure) (w_db w) = (inr e, db') →
  post_treasure run new_treasure w =
    (Raise (HTTPException 422
              ("shop id " +:+ str_int (NewTreasure.shop_id new_treasure)
                 +:+ " is out of range")),
     mk_world db'
       (w_log w ++ [Connect; Run (insert_statement new_treasure); Close])).
Proof.
  intros Hrun. unfold post_treasure, try_except_finally.
  connect_and_run.
  fold (insert_statement new_treasure). rewrite Hrun.
  unfold raise, conn_close, log. cbn [w_db w_log].
  by rewrite <-!app_assoc.
Qed.

Lemma post_treasure_accepted run new_treasure w x db' :
  run (insert_statement new_treasure) (w_db w) = (inl [Treasure.to_row x], db') →
  post_treasure run new_treasure w =
    (Ok {[ "treasure" :=
             {[ "treasure_id" := VInt (Treasure.treasure_id x);
                "treasure_name" := VStr (Treasure.treasure_name x);
                "colour" := VStr (Treasure.colour x);
                "age" := VInt (Treasure.age x);
                "cost_at_auction" := VFloat (Treasure.cost_at_auction x);
                "shop_id" := VInt (Treasure.shop_id x) ]} ]},
     mk_world db'
       (w_log w ++ [Connect; Run (insert_statement new_treasure); Close])).
Proof.
  intros Hrun. unfold post_treasure, try_except_finally.
  connect_and_run.
  fold (insert_statement new_treasure). rewrite Hrun.
  unfold conn_close, log. cbn -[insert]. 
  by rewrite <-!app_assoc.
Qed.

Lemma patch_treasure_missing id new_price w :
  id ∉ (Treasure.treasure_id <$> treasures (w_db w)) →
  patch_treasure pg_run id new_price w =
    (Raise IndexError,
     mk_world (w_db w) (w_log w ++ [Connect; Run (SelectPrice id)])).
Proof.
  intros Hid. unfold patch_treasure.
  connect_and_run.
  rewrite filter_has_id_nil by done.
  unfold bind. cbn [fmap list_fmap subscript lookup list_lookup raise].
  by rewrite <-!app_assoc.
Qed.

Lemma patch_treasure_found x new_price w :
  NoDup (Treasure.treasure_id <$> treasures (w_db w)) →
  x ∈ treasures (w_db w) →
  patch_treasure pg_run (Treasure.treasure_id x) new_price w =
    if Qle_bool (Treasure.cost_at_auction x)
         (NewPrice.cost_at_auction new_price)
    then
      (Raise (ValueError [FLit "The current price is ";
                          FFloat (Treasure.cost_at_auction x);
                          FLit ", please enter a lower price"]),
       mk_world (w_db w)
         (w_log w ++ [Connect; Run (SelectPrice (Treasure.treasure_id x))]))
    else
      (Ok (),
       mk_world
         (mk_database
            ((λ y, if decide (has_id (Treasure.treasure_id x) y)
                   then Treasure.set_cost
                          (NewPrice.cost_at_auction new_price) y
                   else y) <$> treasures (w_db w))
            (shops (w_db w)) (treasure_id_seq (w_db w)))
         (w_log w ++
            [Connect; Run (SelectPrice (Treasure.treasure_id x));
             Run (UpdatePrice (NewPrice.cost_at_auction new_price)
                    (Treasure.treasure_id x));
             Close])).
Proof.
  intros Hnd Hx. unfold patch_treasure.
  connect_and_run.
  rewrite filter_has_id_unique by done.
  unfold bind at 1. unfold bind at 1.
  cbn [fmap list_fmap subscript lookup list_lookup ret].
  unfold bind at 1. cbn [py_ge py_le as_number typed ret].
  destruct (Qle_bool _ _).
  - unfold bind. cbn [subscript lookup list_lookup ret raise format_value].
    by rewrite <-!app_assoc.
  - unfold bind, conn_run, conn_close, log.
    cbn [pg_run w_db w_log]. by rewrite <-!app_assoc.
Qed.

Lemma delete_treasure_pg id w :
  delete_treasure pg_run id w =
    if bool_decide (id ∈ (Treasure.treasure_id <$> treasures (w_db w)))
    then
      (Ok (),
       mk_world
         (mk_database (filter (λ x, ¬ has_id id x) (treasures (w_db w)))
            (shops (w_db w)) (treasure_id_seq (w_db w)))
         (w_log w ++
            [Connect; Run (DeleteTreasure id);
             Stdout ("treasure " +:+ str_int id +:+ " has been deleted");
             Close]))
    else
      (Raise (ValueError
                [FLit ("There is no treasure with id " +:+ str_int id)]),
       mk_world (w_db w) (w_log w ++ [Connect; Run (DeleteTreasure id)])).
Proof.
  unfold delete_treasure.
  connect_and_run.
  case_bool_decide as Hid.
  - apply list_elem_of_fmap in Hid as (x & -> & Hx).
    destruct (filter (has_id _) _) as [|y l] eqn:Hf.
    { exfalso. eapply filter_nil_not_elem_of; [exact Hf| |exact Hx]. done. }
    rewrite fmap_cons. cbn [truthy_list negb].
    unfold bind, print, conn_close, ret, log. cbn [w_db w_log].
    by rewrite <-!app_assoc.
  - rewrite filter_has_id_nil, filter_not_has_id_all by done.
    cbn [fmap list_fmap truthy_list negb]. unfold raise.
    rewrite <-!app_assoc. by destruct (w_db w).
Qed.

(** ** The handlers on the example store *)

Example str_int_12 : str_int 12 = "12" ∧ str_int (-7) = "-7".
Proof. split; reflexivity. Qed.

Example round2_ties_to_even :
  round2 (1005 # 1000) = 100 # 100 ∧ round2 (1015 # 1000) = 102 # 100
  ∧ round2 (61 # 3) = 2033 # 100.
Proof. repeat split. Qed.

Example get_treasures_default_example :
  fst (GET_api_treasures pg_run None None None None None example_world) =
    Response 200
      {[ "treasures" :=
           joined_to_dict <$>
             [(Treasure.mk 2 "Coin" "silver" 0 (1995 # 100) 2,
               Shop.mk 2 "Beta" "b");
              (Treasure.mk 1 "Ring" "gold" 5 (20 # 1) 1,
               Shop.mk 1 "Alpha" "a");
              (Treasure.mk 3 "Fork" "silver" 13 (1 # 3) 1,
               Shop.mk 1 "Alpha" "a")] ]}.
Proof. vm_compute. reflexivity. Qed.

Example get_treasures_silver_example :
  fst (GET_api_treasures pg_run (Some "treasure_name") (Some "desc")
         (Some "silver") (Some 13) (Some 1) example_world) =
    Response 200
      {[ "treasures" :=
           joined_to_dict <$>
             [(Treasure.mk 3 "Fork" "silver" 13 (1 # 3) 1,
               Shop.mk 1 "Alpha" "a")] ]}.
Proof. vm_compute. reflexivity. Qed.

Example get_treasures_empty_colour_example :
  ∃ data,
    fst (GET_api_treasures pg_run None None (Some "") None None
           example_world) =
      Response 200 {[ "treasures" := data ]}
    ∧ length data = 3%nat.
Proof. eexists. split; vm_compute; reflexivity. Qed.

Example get_shops_example :
  fst (GET_api_shops pg_run example_world) =
    Response 200
      {[ "shops" :=
           [ {[ "shop_id" := VInt 1; "shop_name" := VStr "Alpha";
                "slogan" := VStr "a"; "stock value" := VFloat (2033 # 100) ]};
             {[ "shop_id" := VInt 2; "shop_name" := VStr "Beta";
                "slogan" := VStr "b"; "stock value" := VFloat (1995 # 100) ]};
             {[ "shop_id" := VInt 3; "shop_name" := VStr "Gamma";
                "slogan" := VStr "c" ]} ] ]}.
Proof. vm_compute. reflexivity. Qed.

Example patch_then_patch_example :
  ∃ w1,
    PATCH_api_treasures pg_run 1 (NewPrice.mk (5 # 1)) example_world =
      (Response 204 (), w1)
    ∧ fst (PATCH_api_treasures pg_run 1 (NewPrice.mk (5 # 1)) w1) =
        Unhandled (ValueError [FLit "The current price is "; FFloat (5 # 1);
                               FLit ", please enter a lower price"]).
Proof. eexists. split; vm_compute; reflexivity. Qed.

(** * The claims *)

(** C1: a PATCH on an existing treasure whose new [cost_at_auction] is
    strictly lower than the stored one sets that treasure's price to the new
    value and answers 204; a new price greater than or equal to the stored
    one raises a [ValueError], which is left unhandled (no HTTP error
    response), and the store is unchanged. *)
Theorem patch_treasure_price_must_decrease (w : world) (x : Treasure.t)
    (new_price : NewPrice.t) :
  NoDup (Treasure.treasure_id <$> treasures (w_db w)) →
  x ∈ treasures (w_db w) →
  ((NewPrice.cost_at_auction new_price < Treasure.cost_at_auction x)%Q →
   ∃ w',
     PATCH_api_treasures pg_run (Treasure.treasure_id x) new_price w =
       (Response 204 (), w')
     ∧ treasures (w_db w') =
         ((λ y, if decide (has_id (Treasure.treasure_id x) y)
                then Treasure.set_cost (NewPrice.cost_at_auction new_price) y
                else y) <$> treasures (w_db w))
     ∧ Treasure.set_cost (NewPrice.cost_at_auction new_price) x
         ∈ treasures (w_db w'))
  ∧
  ((Treasure.cost_at_auction x <= NewPrice.cost_at_auction new_price)%Q →
   ∃ message w',
     PATCH_api_treasures pg_run (Treasure.treasure_id x) new_price w =
       (Unhandled (ValueError message), w')
     ∧ w_db w' = w_db w).
Proof.
  intros Hnd Hx. unfold PATCH_api_treasures, route.
  rewrite patch_treasure_found by done. split.
  - intros Hlt. destruct (Qle_bool _ _) eqn:Hle.
    { apply Qle_bool_iff in Hle. by apply Qlt_not_le in Hlt. }
    eexists. split_and!; [done..|]. cbn [w_db treasures].
    apply list_elem_of_fmap. exists x. split; [|done].
    by rewrite decide_True.
  - intros Hle%Qle_bool_iff. rewrite Hle. by eexists _, _.
Qed.

Lemma patch_treasure_price_must_decrease_witness :
  (∃ w',
     PATCH_api_treasures pg_run 1 (NewPrice.mk (5 # 1)) example_world =
       (Response 204 (), w')
     ∧ Treasure.mk 1 "Ring" "gold" 5 (5 # 1) 1 ∈ treasures (w_db w'))
  ∧ (∃ message w',
       PATCH_api_treasures pg_run 1 (NewPrice.mk (20 # 1)) example_world =
         (Unhandled (ValueError message), w')
       ∧ w_db w' = example_db).
Proof.
  split.
  - destruct (patch_treasure_price_must_decrease example_world
                (Treasure.mk 1 "Ring" "gold" 5 (20 # 1) 1)
                (NewPrice.mk (5 # 1))) as [Hlower _].
    + compute_done.
    + apply list_elem_of_here.
    + destruct Hlower as (w' & ? & _ & ?); [reflexivity|]. by exists w'.
  - destruct (patch_treasure_price_must_decrease example_world
                (Treasure.mk 1 "Ring" "gold" 5 (20 # 1) 1)
                (NewPrice.mk (20 # 1))) as [_ Hsame].
    + compute_done.
    + apply list_elem_of_here.
    + apply Hsame. vm_compute. discriminate.
Defined.

(** C2, at [max_age=0]: the listing of the example store still holds the
    treasures of age 5 and 13, which do not pass the supplied bound: the
    guard [if max_age:] skips the filter for [0]. *)
Theorem get_treasures_ignores_max_age_zero :
  fst (GET_api_treasures pg_run None None None (Some 0) None example_world) =
    Response 200
      {[ "treasures" :=
           joined_to_dict <$>
             [(Treasure.mk 2 "Coin" "silver" 0 (1995 # 100) 2,
               Shop.mk 2 "Beta" "b");
              (Treasure.mk 1 "Ring" "gold" 5 (20 # 1) 1,
               Shop.mk 1 "Alpha" "a");
              (Treasure.mk 3 "Fork" "silver" 13 (1 # 3) 1,
               Shop.mk 1 "Alpha" "a")] ]}
  ∧ satisfies None (Some 0) None
      (Treasure.mk 1 "Ring" "gold" 5 (20 # 1) 1, Shop.mk 1 "Alpha" "a")
    = false.
Proof. split; vm_compute; reflexivity. Qed.

(** Away from the falsy values, the listing holds exactly the rows that pass
    the supplied filters. *)
Lemma get_treasures_filters sort_by order c d colour max_age min_age w :
  sort_by ∈ treasures_columns → order ∈ order_options →
  column_of_name sort_by = Some c → direction_of_name order = Some d →
  min_age ≠ Some 0 → max_age ≠ Some 0 → colour ≠ Some "" →
  fst (get_treasures pg_run sort_by order colour max_age min_age w) =
    Ok {[ "treasures" :=
            joined_to_dict <$>
              filter (λ p, satisfies colour max_age min_age p = true)
                (order_by c d (join (treasures (w_db w)) (shops (w_db w)))) ]}.
Proof.
  intros Hs Ho Hc Hd Hmin Hmax Hcol.
  rewrite (get_treasures_pg _ _ c d) by done. cbn [fst]. do 3 f_equal.
  unfold listing. apply list_filter_iff. intros p.
  by rewrite kept_satisfies.
Qed.




(** C5: when [sort_by] is not a listed column or [order] is not [asc] or
    [desc], GET /api/treasures answers 422 and the world is the one it
    started in: no connection opened, no statement run, the store unchanged,
    whatever the storage is. *)
Theorem get_treasures_invalid_query run
    (sort_by order colour : option string) (max_age min_age : option Z)
    (w : world) :
  default "age" sort_by ∉ treasures_columns
  ∨ default "asc" order ∉ order_options →
  ∃ detail,
    GET_api_treasures run sort_by order colour max_age min_age w =
      (ErrorResponse 422 detail, w).
Proof.
  intros H. unfold GET_api_treasures, route, get_treasures.
  case_bool_decide as Hs; cbn [negb]; [|by eexists].
  case_bool_decide as Ho; cbn [negb]; [|by eexists].
  by destruct H.
Qed.

Lemma get_treasures_invalid_query_witness :
  (∃ detail,
     GET_api_treasures pg_run (Some "cost") None None None None example_world
       = (ErrorResponse 422 detail, example_world))
  ∧ (∃ detail,
       GET_api_treasures pg_run None (Some "dsc") None None None example_world
         = (ErrorResponse 422 detail, example_world)).
Proof.
  split.
  - apply (get_treasures_invalid_query pg_run (Some "cost") None None None
             None example_world).
    left. compute_done.
  - apply (get_treasures_invalid_query pg_run None (Some "dsc") None None
             None example_world).
    right. compute_done.
Defined.

(** C6: a POST whose [shop_id] matches no shop has its insert rejected with
    a foreign-key violation; the handler answers 422 with the detail
    ["shop id {shop_id} is out of range"], the treasures table is unchanged
    and the connection that was opened is closed. *)
Theorem post_treasure_unknown_shop (new_treasure : NewTreasure.t)
    (w : world) :
  NewTreasure.shop_id new_treasure ∉ (Shop.shop_id <$> shops (w_db w)) →
  pg_run (insert_statement new_treasure) (w_db w) =
    (inr ForeignKeyViolation,
     mk_database (treasures (w_db w)) (shops (w_db w))
       (treasure_id_seq (w_db w) + 1))
  ∧ ∃ w',
      POST_api_treasures pg_run new_treasure w =
        (ErrorResponse 422
           ("shop id " +:+ str_int (NewTreasure.shop_id new_treasure)
              +:+ " is out of range"), w')
      ∧ treasures (w_db w') = treasures (w_db w)
      ∧ w_log w' =
          (w_log w ++ [Connect; Run (insert_statement new_treasure); Close])%list
      ∧ open_connections (w_log w') = open_connections (w_log w).
Proof.
  intros Hid.
  assert (pg_run (insert_statement new_treasure) (w_db w) =
            (inr ForeignKeyViolation,
             mk_database (treasures (w_db w)) (shops (w_db w))
               (treasure_id_seq (w_db w) + 1))) as Hrun.
  { unfold insert_statement, pg_run. by rewrite bool_decide_eq_false_2. }
  split; [done|]. unfold POST_api_treasures, route.
  rewrite (post_treasure_rejected _ _ _ _ _ Hrun).
  eexists. split_and!; [done..|]. cbn [w_log].
  rewrite open_connections_app. simpl. lia.
Qed.

Lemma post_treasure_unknown_shop_witness :
  ∃ w',
    POST_api_treasures pg_run
      (NewTreasure.mk "Steel Computer" "steel" 24 (666 # 1) 12) example_world =
      (ErrorResponse 422 "shop id 12 is out of range", w')
    ∧ treasures (w_db w') = treasures example_db
    ∧ open_connections (w_log w') = 0.
Proof.
  destruct (post_treasure_unknown_shop
              (NewTreasure.mk "Steel Computer" "steel" 24 (666 # 1) 12)
              example_world) as (_ & w' & Hpost & Hts & _ & Hopen).
  - compute_done.
  - exists w'. split_and!; [exact Hpost|exact Hts|exact Hopen].
Defined.

(** C7: a POST whose [shop_id] matches a shop appends exactly one row to the
    treasures table and answers 201 with a [treasure] object made of the
    submitted values and the generated [treasure_id]; the object carries
    [shop_id] and no [shop_name]. *)
Theorem post_treasure_created (new_treasure : NewTreasure.t) (w : world) :
  NewTreasure.shop_id new_treasure ∈ (Shop.shop_id <$> shops (w_db w)) →
  ∃ (treasure : dict) w',
    POST_api_treasures pg_run new_treasure w =
      (Response 201 {[ "treasure" := treasure ]}, w')
    ∧ treasure =
        {[ "treasure_id" := VInt (treasure_id_seq (w_db w));
           "treasure_name" := VStr (NewTreasure.treasure_name new_treasure);
           "colour" := VStr (NewTreasure.colour new_treasure);
           "age" := VInt (NewTreasure.age new_treasure);
           "cost_at_auction" :=
             VFloat (NewTreasure.cost_at_auction new_treasure);
           "shop_id" := VInt (NewTreasure.shop_id new_treasure) ]}
    ∧ treasure !! "shop_name" = None
    ∧ treasures (w_db w') =
        (treasures (w_db w) ++
           [Treasure.mk (treasure_id_seq (w_db w))
              (NewTreasure.treasure_name new_treasure)
              (NewTreasure.colour new_treasure)
              (NewTreasure.age new_treasure)
              (NewTreasure.cost_at_auction new_treasure)
              (NewTreasure.shop_id new_treasure)])%list
    ∧ shops (w_db w') = shops (w_db w).
Proof.
  intros Hid. unfold POST_api_treasures, route.
  erewrite post_treasure_accepted; last first.
  { unfold insert_statement, pg_run. by rewrite bool_decide_eq_true_2. }
  eexists _, _. split_and!; done.
Qed.

Lemma post_treasure_created_witness :
  ∃ w',
    POST_api_treasures pg_run
      (NewTreasure.mk "Steel Computer" "steel" 24 (666 # 1) 1) example_world =
      (Response 201
         {[ "treasure" :=
              {[ "treasure_id" := VInt 4;
                 "treasure_name" := VStr "Steel Computer";
                 "colour" := VStr "steel";
                 "age" := VInt 24;
                 "cost_at_auction" := VFloat (666 # 1);
                 "shop_id" := VInt 1 ]} ]}, w')
    ∧ length (treasures (w_db w')) = 4%nat.
Proof.
  destruct (post_treasure_created
              (NewTreasure.mk "Steel Computer" "steel" 24 (666 # 1) 1)
              example_world) as (treasure & w' & Hpost & -> & _ & Hts & _).
  - compute_done.
  - exists w'. split; [exact Hpost|]. by rewrite Hts.
Defined.

(** C8: in a well-formed store, a DELETE on an id that exists removes the
    row with that id and no other, answers 204 with no body, and the listing
    that follows is shorter by exactly one; the handler raises a
    [ValueError] exactly when no row has that id, and then the table is
    unchanged. *)
Theorem delete_treasure_removes_row (id : Z) (w : world) :
  db_wf (w_db w) →
  (id ∈ (Treasure.treasure_id <$> treasures (w_db w)) →
   ∃ w',
     DELETE_api_treasures pg_run id w = (Response 204 (), w')
     ∧ treasures (w_db w') =
         filter (λ x, Treasure.treasure_id x ≠ id) (treasures (w_db w))
     ∧ (id ∉ (Treasure.treasure_id <$> treasures (w_db w')))
     ∧ (length (treasures (w_db w')) + 1)%nat = length (treasures (w_db w))
     ∧ ∃ before after w1 w2,
         GET_api_treasures pg_run None None None None None w =
           (Response 200 {[ "treasures" := before ]}, w1)
         ∧ GET_api_treasures pg_run None None None None None w' =
             (Response 200 {[ "treasures" := after ]}, w2)
         ∧ (length after + 1)%nat = length before)
  ∧ ((∃ message w',
        DELETE_api_treasures pg_run id w =
          (Unhandled (ValueError message), w'))
     ↔ id ∉ (Treasure.treasure_id <$> treasures (w_db w)))
  ∧ (id ∉ (Treasure.treasure_id <$> treasures (w_db w)) →
     treasures (w_db (snd (DELETE_api_treasures pg_run id w))) =
       treasures (w_db w)).
Proof.
  intros (Hts & Hss & Hfk). unfold DELETE_api_treasures, route.
  rewrite delete_treasure_pg. split_and!.
  - intros Hid. rewrite bool_decide_eq_true_2 by done.
    eexists. split; [done|]. cbn [w_db treasures shops].
    assert ((length (filter (λ x, ¬ has_id id x) (treasures (w_db w))) + 1)%nat
            = length (treasures (w_db w))) as Hlen.
    { apply list_elem_of_fmap in Hid as (x & -> & Hx).
      rewrite <-(length_filter_complement (has_id (Treasure.treasure_id x))
                   (treasures (w_db w))).
      rewrite filter_has_id_unique by done. simpl. lia. }
    split_and!; [done| |done|].
    + intros (x & -> & Hx)%list_elem_of_fmap.
      apply list_elem_of_filter in Hx as [Hx _]. by apply Hx.
    + unfold GET_api_treasures, route.
      rewrite !(get_treasures_pg _ _ CAge Asc) by compute_done.
      eexists _, _, _, _. split_and!; [done..|].
      rewrite !length_fmap.
      rewrite (length_listing_unfiltered _ _ (w_db w)) by done.
      rewrite length_listing_unfiltered; [done|done|].
      intros x Hx%list_elem_of_filter. apply Hfk, Hx.
  - case_bool_decide as Hid; split.
    + by intros (? & ? & [=]).
    + done.
    + done.
    + intros _. by eexists _, _.
  - intros Hid. by rewrite bool_decide_eq_false_2.
Qed.

Lemma delete_treasure_removes_row_witness :
  (∃ w',
     DELETE_api_treasures pg_run 1 example_world = (Response 204 (), w')
     ∧ length (treasures (w_db w')) = 2%nat)
  ∧ (∃ message w',
       DELETE_api_treasures pg_run 7 example_world =
         (Unhandled (ValueError message), w')).
Proof.
  assert (db_wf example_db) as Hwf.
  { split_and!; [compute_done..|].
    intros x Hx. apply (bool_decide_unpack _).
    repeat (apply elem_of_cons in Hx as [->|Hx]; [compute_done|]).
    by apply elem_of_nil in Hx. }
  split.
  - destruct (delete_treasure_removes_row 1 example_world Hwf)
      as (Hfound & _ & _).
    destruct Hfound as (w' & Hdel & _ & _ & Hlen & _); [compute_done|].
    exists w'. split; [exact Hdel|]. simpl in Hlen. lia.
  - destruct (delete_treasure_removes_row 7 example_world Hwf)
      as (_ & Hiff & _).
    apply Hiff. compute_done.
Defined.

(** C9: a PATCH on an id that no treasure has gets an empty result from the
    price query, indexing it raises [IndexError], which is left unhandled,
    and no [UPDATE] is sent: the log grows by the connection and the price
    query only, and the store is unchanged. *)
Theorem patch_treasure_missing_id (treasure_id : Z) (new_price : NewPrice.t)
    (w : world) :
  treasure_id ∉ (Treasure.treasure_id <$> treasures (w_db w)) →
  pg_run (SelectPrice treasure_id) (w_db w) = (inl [], w_db w)
  ∧ subscript ([] : list row) 0 w = (Raise IndexError, w)
  ∧ ∃ w',
      PATCH_api_treasures pg_run treasure_id new_price w =
        (Unhandled IndexError, w')
      ∧ w_db w' = w_db w
      ∧ w_log w' = (w_log w ++ [Connect; Run (SelectPrice treasure_id)])%list
      ∧ (ran_update (w_log w') → ran_update (w_log w)).
Proof.
  intros Hid. split_and!.
  - cbn [pg_run]. by rewrite filter_has_id_nil.
  - done.
  - unfold PATCH_api_treasures, route.
    rewrite patch_treasure_missing by done.
    eexists. split_and!; [done..|]. cbn [w_log].
    intros (price & id & Hin). exists price, id.
    rewrite elem_of_app, !elem_of_cons, elem_of_nil in Hin.
    by destruct Hin as [?|[?|[?|[]]]].
Qed.

Lemma patch_treasure_missing_id_witness :
  ∃ w',
    PATCH_api_treasures pg_run 7 (NewPrice.mk (5 # 1)) example_world =
      (Unhandled IndexError, w')
    ∧ w_db w' = example_db
    ∧ w_log w' = [Connect; Run (SelectPrice 7)].
Proof.
  destruct (patch_treasure_missing_id 7 (NewPrice.mk (5 # 1)) example_world)
    as (_ & _ & w' & Hpatch & Hdb & Hlog & _).
  - compute_done.
  - exists w'. split_and!; [exact Hpatch|exact Hdb|exact Hlog].
Defined.

(** C10: whatever the storage and whatever database error it raises on the
    insert, the create handler answers 422 with the detail
    ["shop id {shop_id} is out of range"] built from the submitted shop id
    alone, and closes the connection. *)
Theorem post_treasure_any_database_error run (new_treasure : NewTreasure.t)
    (w : world) (e : db_error) (db' : database) :
  run (insert_statement new_treasure) (w_db w) = (inr e, db') →
  POST_api_treasures run new_treasure w =
    (ErrorResponse 422
       ("shop id " +:+ str_int (NewTreasure.shop_id new_treasure)
          +:+ " is out of range"),
     mk_world db'
       (w_log w ++ [Connect; Run (insert_statement new_treasure); Close])).
Proof.
  intros Hrun. unfold POST_api_treasures, route.
  by rewrite (post_treasure_rejected _ _ _ _ _ Hrun).
Qed.

Lemma post_treasure_any_database_error_witness :
  POST_api_treasures (failing_run (OtherDatabaseError "connection lost"))
    (NewTreasure.mk "Steel Computer" "steel" 24 (666 # 1) 1) example_world =
    (ErrorResponse 422 "shop id 1 is out of range",
     mk_world example_db
       [Connect;
        Run (InsertTreasure "Steel Computer" "steel" 24 (666 # 1) 1);
        Close]).
Proof.
  apply (post_treasure_any_database_error
           (failing_run (OtherDatabaseError "connection lost"))
           (NewTreasure.mk "Steel Computer" "steel" 24 (666 # 1) 1)
           example_world (OtherDatabaseError "connection lost") example_db).
  reflexivity.
Defined.

(** * Further properties of the handlers *)

(** ** Membership in the listing *)

Lemma elem_of_join (ts : list Treasure.t) (ss : list Shop.t) (p : joined) :
  p ∈ join ts ss ↔
  p.1 ∈ ts ∧ p.2 ∈ ss ∧ Treasure.shop_id p.1 = Shop.shop_id p.2.
Proof.
  unfold join. rewrite list_elem_of_bind. split.
  - intros (x & Hp & Hx). apply list_elem_of_fmap in Hp as (s & -> & Hs).
    apply list_elem_of_filter in Hs as [Heq Hs]. done.
  - destruct p as [x s]. intros (Hx & Hs & Heq). exists x. split; [|done].
    apply list_elem_of_fmap. exists s. split; [done|].
    by apply list_elem_of_filter.
Qed.

Lemma elem_of_listing c d colour max_age min_age db (p : joined) :
  p ∈ listing c d colour max_age min_age db ↔
  kept colour max_age min_age p = true
  ∧ p ∈ join (treasures db) (shops db).
Proof.
  unfold listing, order_by.
  by rewrite list_elem_of_filter, merge_sort_Permutation.
Qed.

Lemma listing_Permutation c d c' d' colour max_age min_age db :
  listing c d colour max_age min_age db
  ≡ₚ listing c' d' colour max_age min_age db.
Proof.
  unfold listing, order_by. by rewrite !merge_sort_Permutation.
Qed.

Lemma length_listing_le c d colour max_age min_age db :
  NoDup (Shop.shop_id <$> shops db) →
  (∀ x, x ∈ treasures db → Treasure.shop_id x ∈ (Shop.shop_id <$> shops db)) →
  (length (listing c d colour max_age min_age db) ≤ length (treasures db))%nat.
Proof.
  intros Hss Hfk. unfold listing, order_by.
  etrans; [apply length_filter|].
  rewrite merge_sort_Permutation. by rewrite length_join_fk.
Qed.

(** X1: for a valid query, the records of GET /api/treasures are exactly the
    stored treasures that pass the applied filters, each joined with the
    shop its [shop_id] references: nothing is invented, and a treasure
    appears with the name of its own shop. *)
Theorem get_treasures_lists_joined_rows (sort_by order colour : option string)
    (max_age min_age : option Z) (w : world) :
  default "age" sort_by ∈ treasures_columns →
  default "asc" order ∈ order_options →
  ∃ data w',
    GET_api_treasures pg_run sort_by order colour max_age min_age w =
      (Response 200 {[ "treasures" := data ]}, w')
    ∧ ∀ d : dict, d ∈ data ↔
        ∃ x s, x ∈ treasures (w_db w) ∧ s ∈ shops (w_db w)
          ∧ Treasure.shop_id x = Shop.shop_id s
          ∧ kept colour max_age min_age (x, s) = true
          ∧ d = joined_to_dict (x, s).
Proof.
  intros Hs Ho. unfold GET_api_treasures, route.
  destruct (column_of_name_elem _ Hs) as [c Hc].
  destruct (direction_of_name_elem _ Ho) as [dir Hd].
  rewrite (get_treasures_pg _ _ c dir) by done.
  eexists _, _. split; [done|]. intros d.
  rewrite list_elem_of_fmap. split.
  - intros ([x s] & -> & Hp). apply elem_of_listing in Hp as [Hk Hp].
    apply elem_of_join in Hp as (? & ? & ?). by exists x, s.
  - intros (x & s & Hx & Hsh & Heq & Hk & ->). exists (x, s). split; [done|].
    apply elem_of_listing. split; [done|]. by apply elem_of_join.
Qed.

Lemma get_treasures_lists_joined_rows_witness :
  ∃ data w',
    GET_api_treasures pg_run (Some "colour") (Some "desc") (Some "gold")
      None None example_world =
      (Response 200 {[ "treasures" := data ]}, w')
    ∧ joined_to_dict (Treasure.mk 1 "Ring" "gold" 5 (20 # 1) 1,
                      Shop.mk 1 "Alpha" "a") ∈ data.
Proof.
  destruct (get_treasures_lists_joined_rows (Some "colour") (Some "desc")
              (Some "gold") None None example_world)
    as (data & w' & Hget & Hdata); [compute_done..|].
  exists data, w'. split; [exact Hget|]. apply Hdata.
  exists (Treasure.mk 1 "Ring" "gold" 5 (20 # 1) 1), (Shop.mk 1 "Alpha" "a").
  split_and!; [apply list_elem_of_here|apply list_elem_of_here|
               reflexivity|reflexivity|reflexivity].
Defined.

(** X2: when no supplied filter value is [0] or the empty string, the
    records of the listing are exactly the joined rows whose colour equals
    the given colour and whose age lies within the inclusive bounds given. *)
Theorem get_treasures_filters_exact (sort_by order colour : option string)
    (max_age min_age : option Z) (w : world) :
  default "age" sort_by ∈ treasures_columns →
  default "asc" order ∈ order_options →
  min_age ≠ Some 0 → max_age ≠ Some 0 → colour ≠ Some "" →
  ∃ data w',
    GET_api_treasures pg_run sort_by order colour max_age min_age w =
      (Response 200 {[ "treasures" := data ]}, w')
    ∧ ∀ d : dict, d ∈ data ↔
        ∃ p, p ∈ join (treasures (w_db w)) (shops (w_db w))
          ∧ (∀ a, min_age = Some a → a ≤ Treasure.age p.1)
          ∧ (∀ a, max_age = Some a → Treasure.age p.1 ≤ a)
          ∧ (∀ c, colour = Some c → Treasure.colour p.1 = c)
          ∧ d = joined_to_dict p.
Proof.
  intros Hs Ho Hmin Hmax Hcol. unfold GET_api_treasures, route.
  destruct (column_of_name_elem _ Hs) as [c Hc].
  destruct (direction_of_name_elem _ Ho) as [dir Hd].
  rewrite (get_treasures_pg _ _ c dir) by done.
  eexists _, _. split; [done|]. intros d.
  rewrite list_elem_of_fmap.
  assert (∀ p, kept colour max_age min_age p = true ↔
    (∀ a, min_age = Some a → a ≤ Treasure.age p.1)
    ∧ (∀ a, max_age = Some a → Treasure.age p.1 ≤ a)
    ∧ (∀ c, colour = Some c → Treasure.colour p.1 = c)) as Hkept.
  { intros p. rewrite kept_satisfies by done. unfold satisfies.
    rewrite !andb_true_iff.
    destruct min_age, max_age, colour;
      rewrite ?Z.leb_le, ?String.eqb_eq; naive_solver. }
  split.
  - intros (p & -> & Hp). apply elem_of_listing in Hp as [Hk Hp].
    exists p. apply Hkept in Hk. naive_solver.
  - intros (p & Hp & Ha & Hb & Hc' & ->). exists p. split; [done|].
    apply elem_of_listing. split; [|done]. by apply Hkept.
Qed.

Lemma get_treasures_filters_exact_witness :
  ∃ data w',
    GET_api_treasures pg_run None None (Some "silver") (Some 13) (Some 1)
      example_world =
      (Response 200 {[ "treasures" := data ]}, w')
    ∧ (∀ d : dict, d ∈ data → d !! "colour" = Some (VStr "silver")).
Proof.
  destruct (get_treasures_filters_exact None None (Some "silver") (Some 13)
              (Some 1) example_world)
    as (data & w' & Hget & Hdata); [compute_done..|].
  exists data, w'. split; [exact Hget|].
  intros d (p & _ & _ & _ & Hc & ->)%Hdata.
  by rewrite <-(Hc "silver" eq_refl).
Defined.

(** X3: in a store whose shop ids are unique and whose treasures all
    reference a shop, GET /api/treasures never returns more records than
    there are treasures, and returns exactly one per treasure when no filter
    is given. *)
Theorem get_treasures_count (sort_by order colour : option string)
    (max_age min_age : option Z) (w : world) :
  default "age" sort_by ∈ treasures_columns →
  default "asc" order ∈ order_options →
  db_wf (w_db w) →
  ∃ data w',
    GET_api_treasures pg_run sort_by order colour max_age min_age w =
      (Response 200 {[ "treasures" := data ]}, w')
    ∧ (length data ≤ length (treasures (w_db w)))%nat
    ∧ (colour = None → max_age = None → min_age = None →
       length data = length (treasures (w_db w))).
Proof.
  intros Hs Ho (_ & Hss & Hfk). unfold GET_api_treasures, route.
  destruct (column_of_name_elem _ Hs) as [c Hc].
  destruct (direction_of_name_elem _ Ho) as [dir Hd].
  rewrite (get_treasures_pg _ _ c dir) by done.
  eexists _, _. split_and!; [done|..].
  - rewrite length_fmap. by apply length_listing_le.
  - intros -> -> ->. rewrite length_fmap.
    by apply length_listing_unfiltered.
Qed.

(** X4: the sort column and direction only reorder the listing: two valid
    queries with the same filters return the same records, up to order. *)
Theorem get_treasures_sort_only_reorders (sort_by order sort_by' order' : string)
    (colour : option string) (max_age min_age : option Z) (w : world) :
  sort_by ∈ treasures_columns → order ∈ order_options →
  sort_by' ∈ treasures_columns → order' ∈ order_options →
  ∃ data data' w1 w2,
    GET_api_treasures pg_run (Some sort_by) (Some order) colour max_age
      min_age w = (Response 200 {[ "treasures" := data ]}, w1)
    ∧ GET_api_treasures pg_run (Some sort_by') (Some order') colour max_age
        min_age w = (Response 200 {[ "treasures" := data' ]}, w2)
    ∧ data ≡ₚ data'.
Proof.
  intros Hs Ho Hs' Ho'. unfold GET_api_treasures, route. cbn [default].
  destruct (column_of_name_elem _ Hs) as [c Hc].
  destruct (direction_of_name_elem _ Ho) as [dir Hd].
  destruct (column_of_name_elem _ Hs') as [c' Hc'].
  destruct (direction_of_name_elem _ Ho') as [dir' Hd'].
  rewrite (get_treasures_pg _ _ c dir), (get_treasures_pg _ _ c' dir')
    by done.
  eexists _, _, _, _. split_and!; [done..|].
  apply fmap_Permutation, listing_Permutation.
Qed.


Lemma post_treasure_log run new_treasure w :
  ∃ r,
    post_treasure run new_treasure w =
      (r, mk_world (run (insert_statement new_treasure) (w_db w)).2
            (w_log w ++ [Connect; Run (insert_statement new_treasure); Close]))
    ∧ ∀ e, r ≠ Raise (DatabaseError e).
Proof.
  destruct (run (insert_statement new_treasure) (w_db w)) as [[rows|e] db']
    eqn:Hrun.
  - unfold post_treasure, try_except_finally. connect_and_run.
    fold (insert_statement new_treasure). rewrite Hrun. cbn [snd].
    unfold bind, subscript, ret, raise, conn_close, log. cbn [w_db w_log].
    destruct rows as [|r rows]; simpl;
      [rewrite <-!app_assoc; eexists; split; [reflexivity|done]|].
    do 6 (destruct r as [|? r]; simpl;
          [rewrite <-!app_assoc; eexists; split; [reflexivity|done]|]).
    rewrite <-!app_assoc. eexists; split; [reflexivity|done].
  - rewrite (post_treasure_rejected _ _ _ _ _ Hrun). by eexists.
Qed.

(** X6: whatever the storage answers, the create handler opens one
    connection, sends the insert once and closes the connection: the
    [finally] clause runs on every path, and no [DatabaseError] escapes the
    handler. *)
Theorem post_treasure_always_closes run (new_treasure : NewTreasure.t)
    (w : world) :
  ∃ r w',
    POST_api_treasures run new_treasure w = (r, w')
    ∧ w_log w' =
        (w_log w ++ [Connect; Run (insert_statement new_treasure); Close])%list
    ∧ open_connections (w_log w') = open_connections (w_log w)
    ∧ ∀ e, r ≠ Unhandled (DatabaseError e).
Proof.
  unfold POST_api_treasures, route.
  destruct (post_treasure_log run new_treasure w) as (r & -> & Hr).
  destruct r as [body|[]]; eexists _, _;
    (split_and!; [done|done| |];
     [cbn [w_log]; rewrite open_connections_app; simpl; lia|]);
    try done.
  intros e' [= ->]. by eapply Hr.
Qed.

Lemma patch_keeps_ids id price (ts : list Treasure.t) :
  Treasure.treasure_id <$>
    ((λ y, if decide (has_id id y) then Treasure.set_cost price y else y)
       <$> ts)
  = Treasure.treasure_id <$> ts.
Proof.
  rewrite <-list_fmap_compose. apply list_fmap_ext.
  intros i y _. simpl. by case_decide.
Qed.

(** X7: on both error paths of PATCH /api/treasures/{id} the handler stops
    before [conn.close()]: an unknown id gives an unhandled [IndexError], a
    price that is not lower gives a [ValueError] whose message reports the
    stored price, and in both cases the store is unchanged and the
    connection is left open; only the successful update closes it. *)
Theorem patch_treasure_error_paths (treasure_id : Z) (new_price : NewPrice.t)
    (w : world) :
  NoDup (Treasure.treasure_id <$> treasures (w_db w)) →
  ∃ r w',
    PATCH_api_treasures pg_run treasure_id new_price w = (r, w')
    ∧ ((r = Response 204 ()
        ∧ open_connections (w_log w') = open_connections (w_log w))
       ∨ ((r = Unhandled IndexError
           ∧ treasure_id ∉ (Treasure.treasure_id <$> treasures (w_db w))
           ∨ ∃ x, x ∈ treasures (w_db w)
               ∧ Treasure.treasure_id x = treasure_id
               ∧ r = Unhandled (ValueError
                       [FLit "The current price is ";
                        FFloat (Treasure.cost_at_auction x);
                        FLit ", please enter a lower price"]))
          ∧ w_db w' = w_db w
          ∧ open_connections (w_log w') = open_connections (w_log w) + 1)).
Proof.
  intros Hnd. unfold PATCH_api_treasures, route.
  destruct (decide (treasure_id ∈
      (Treasure.treasure_id <$> treasures (w_db w)))) as [Hid|Hid].
  - apply list_elem_of_fmap in Hid as (x & -> & Hx).
    rewrite patch_treasure_found by done.
    destruct (Qle_bool _ _); eexists _, _; (split; [done|]).
    + right. split_and!; [right; by exists x|done|].
      cbn [w_log]. rewrite open_connections_app. simpl. lia.
    + left. split; [done|].
      cbn [w_log]. rewrite open_connections_app. simpl. lia.
  - rewrite patch_treasure_missing by done.
    eexists _, _. split; [done|]. right. split_and!; [by left|done|].
    cbn [w_log]. rewrite open_connections_app. simpl. lia.
Qed.

Lemma patch_treasure_error_paths_witness :
  ∃ r w',
    PATCH_api_treasures pg_run 1 (NewPrice.mk (1000000 # 1)) example_world =
      (r, w')
    ∧ r ≠ Response 204 ()
    ∧ open_connections (w_log w') = 1.
Proof.
  destruct (patch_treasure_error_paths 1 (NewPrice.mk (1000000 # 1))
              example_world) as (r & w' & Hpatch & Hcases); [compute_done|].
  exists r, w'. split; [exact Hpatch|].
  assert (r = Unhandled (ValueError
            [FLit "The current price is "; FFloat (20 # 1);
             FLit ", please enter a lower price"])) as ->.
  { vm_compute in Hpatch. by injection Hpatch as <- _. }
  destruct Hcases as [[[=] _]|(_ & _ & Hopen)]. split; [done|exact Hopen].
Defined.

(** X8: DELETE /api/treasures/{id} on an id that no treasure has raises a
    [ValueError] that names the id, prints nothing and leaves the connection
    open; on an id that exists it prints one line naming the id and closes
    the connection. *)
Theorem delete_treasure_log (treasure_id : Z) (w : world) :
  (treasure_id ∉ (Treasure.treasure_id <$> treasures (w_db w)) →
   ∃ w',
     DELETE_api_treasures pg_run treasure_id w =
       (Unhandled (ValueError
          [FLit ("There is no treasure with id " +:+ str_int treasure_id)]),
        w')
     ∧ w_log w' = (w_log w ++ [Connect; Run (DeleteTreasure treasure_id)])%list
     ∧ open_connections (w_log w') = open_connections (w_log w) + 1)
  ∧ (treasure_id ∈ (Treasure.treasure_id <$> treasures (w_db w)) →
     ∃ w',
       DELETE_api_treasures pg_run treasure_id w = (Response 204 (), w')
       ∧ w_log w' =
           (w_log w ++
              [Connect; Run (DeleteTreasure treasure_id);
               Stdout ("treasure " +:+ str_int treasure_id
                         +:+ " has been deleted");
               Close])%list
       ∧ open_connections (w_log w') = open_connections (w_log w)).
Proof.
  unfold DELETE_api_treasures, route. rewrite delete_treasure_pg. split.
  - intros Hid. rewrite bool_decide_eq_false_2 by done.
    eexists. split_and!; [done..|].
    cbn [w_log]. rewrite open_connections_app. simpl. lia.
  - intros Hid. rewrite bool_decide_eq_true_2 by done.
    eexists. split_and!; [done..|].
    cbn [w_log]. rewrite open_connections_app. simpl. lia.
Qed.

Lemma delete_treasure_log_witness :
  (∃ w',
     DELETE_api_treasures pg_run 7 example_world =
       (Unhandled (ValueError [FLit "There is no treasure with id 7"]), w')
     ∧ w_log w' = [Connect; Run (DeleteTreasure 7)])
  ∧ (∃ w',
       DELETE_api_treasures pg_run 2 example_world = (Response 204 (), w')
       ∧ w_log w' =
           [Connect; Run (DeleteTreasure 2);
            Stdout "treasure 2 has been deleted"; Close]).
Proof.
  split.
  - destruct (delete_treasure_log 7 example_world) as [Hmissing _].
    destruct Hmissing as (w' & Hdel & Hlog & _); [compute_done|].
    exists w'. split; [exact Hdel|exact Hlog].
  - destruct (delete_treasure_log 2 example_world) as [_ Hfound].
    destruct Hfound as (w' & Hdel & Hlog & _); [compute_done|].
    exists w'. split; [exact Hdel|exact Hlog].
Defined.

(** X9: PATCH is not idempotent: after a successful price update, sending
    the same request again raises the [ValueError] (the new price is no
    longer lower than the stored one) and changes nothing. *)
Theorem patch_treasure_twice (w : world) (x : Treasure.t)
    (new_price : NewPrice.t) :
  NoDup (Treasure.treasure_id <$> treasures (w_db w)) →
  x ∈ treasures (w_db w) →
  (NewPrice.cost_at_auction new_price < Treasure.cost_at_auction x)%Q →
  ∃ w1 w2,
    PATCH_api_treasures pg_run (Treasure.treasure_id x) new_price w =
      (Response 204 (), w1)
    ∧ PATCH_api_treasures pg_run (Treasure.treasure_id x) new_price w1 =
        (Unhandled (ValueError
           [FLit "The current price is ";
            FFloat (NewPrice.cost_at_auction new_price);
            FLit ", please enter a lower price"]), w2)
    ∧ w_db w2 = w_db w1.
Proof.
  intros Hnd Hx Hlt. unfold PATCH_api_treasures, route.
  rewrite patch_treasure_found by done.
  destruct (Qle_bool _ _) eqn:Hle.
  { apply Qle_bool_iff in Hle. by apply Qlt_not_le in Hlt. }
  eexists _, _. split; [done|].
  set (x' := Treasure.set_cost (NewPrice.cost_at_auction new_price) x).
  change (Treasure.treasure_id x) with (Treasure.treasure_id x').
  rewrite patch_treasure_found; cbn [w_db treasures].
  - change (Treasure.cost_at_auction x')
      with (NewPrice.cost_at_auction new_price).
    rewrite (proj2 (Qle_bool_iff _ _) (Qle_refl _)). done.
  - by rewrite patch_keeps_ids.
  - apply list_elem_of_fmap. exists x. split; [|done].
    by rewrite decide_True.
Qed.

Lemma patch_treasure_twice_witness :
  ∃ w1 w2,
    PATCH_api_treasures pg_run 1 (NewPrice.mk (5 # 1)) example_world =
      (Response 204 (), w1)
    ∧ PATCH_api_treasures pg_run 1 (NewPrice.mk (5 # 1)) w1 =
        (Unhandled (ValueError
           [FLit "The current price is "; FFloat (5 # 1);
            FLit ", please enter a lower price"]), w2)
    ∧ w_db w2 = w_db w1.
Proof.
  apply (patch_treasure_twice example_world
           (Treasure.mk 1 "Ring" "gold" 5 (20 # 1) 1) (NewPrice.mk (5 # 1))).
  - compute_done.
  - apply list_elem_of_here.
  - reflexivity.
Defined.

(** X10: a successful PATCH changes prices only: the ids, names, colours,
    ages and shop references of all rows, the rows with another id, the
    shops table and the id sequence are as before. *)
Theorem patch_treasure_changes_price_only (w : world) (x : Treasure.t)
    (new_price : NewPrice.t) :
  NoDup (Treasure.treasure_id <$> treasures (w_db w)) →
  x ∈ treasures (w_db w) →
  (NewPrice.cost_at_auction new_price < Treasure.cost_at_auction x)%Q →
  ∃ w',
    PATCH_api_treasures pg_run (Treasure.treasure_id x) new_price w =
      (Response 204 (), w')
    ∧ Treasure.treasure_id <$> treasures (w_db w')
        = Treasure.treasure_id <$> treasures (w_db w)
    ∧ Treasure.treasure_name <$> treasures (w_db w')
        = Treasure.treasure_name <$> treasures (w_db w)
    ∧ Treasure.colour <$> treasures (w_db w')
        = Treasure.colour <$> treasures (w_db w)
    ∧ Treasure.age <$> treasures (w_db w')
        = Treasure.age <$> treasures (w_db w)
    ∧ Treasure.shop_id <$> treasures (w_db w')
        = Treasure.shop_id <$> treasures (w_db w)
    ∧ filter (λ y, Treasure.treasure_id y ≠ Treasure.treasure_id x)
        (treasures (w_db w'))
      = filter (λ y, Treasure.treasure_id y ≠ Treasure.treasure_id x)
          (treasures (w_db w))
    ∧ shops (w_db w') = shops (w_db w)
    ∧ treasure_id_seq (w_db w') = treasure_id_seq (w_db w).
Proof.
  intros Hnd Hx Hlt. unfold PATCH_api_treasures, route.
  rewrite patch_treasure_found by done.
  destruct (Qle_bool _ _) eqn:Hle.
  { apply Qle_bool_iff in Hle. by apply Qlt_not_le in Hlt. }
  eexists. split; [done|]. cbn [w_db treasures shops treasure_id_seq].
  split_and!; try done;
    try (rewrite <-list_fmap_compose; apply list_fmap_ext;
         intros i y _; simpl; by case_decide).
  generalize (treasures (w_db w)). intros ts.
  induction ts as [|y ts IH]; [done|]. rewrite fmap_cons.
  destruct (decide (has_id (Treasure.treasure_id x) y)) as [Hy|Hy].
  - rewrite !filter_cons_False; [done|by intros []..].
  - rewrite !filter_cons_True by done. by rewrite IH.
Qed.

Lemma patch_treasure_store id new_price w :
  ∃ r w',
    patch_treasure pg_run id new_price w = (r, w')
    ∧ (w_db w' = w_db w
       ∨ w_db w' =
           mk_database
             ((λ y, if decide (has_id id y)
                    then Treasure.set_cost
                           (NewPrice.cost_at_auction new_price) y
                    else y) <$> treasures (w_db w))
             (shops (w_db w)) (treasure_id_seq (w_db w))).
Proof.
  unfold patch_treasure. connect_and_run.
  destruct (filter (has_id id) (treasures (w_db w))) as [|x rest].
  { unfold bind. cbn [fmap list_fmap subscript lookup list_lookup raise].
    eexists _, _. split; [done|]. by left. }
  unfold bind at 1. unfold bind at 1.
  cbn [fmap list_fmap subscript lookup list_lookup ret].
  unfold bind at 1. cbn [py_ge py_le as_number typed ret].
  destruct (Qle_bool _ _).
  - unfold bind. cbn [subscript lookup list_lookup ret raise format_value].
    eexists _, _. split; [done|]. by left.
  - unfold bind, conn_run, conn_close, log. cbn [pg_run w_db w_log].
    eexists _, _. split; [done|]. by right.
Qed.

Lemma post_treasure_store new_treasure w :
  ∃ r w',
    post_treasure pg_run new_treasure w = (r, w')
    ∧ w_db w' = (pg_run (insert_statement new_treasure) (w_db w)).2.
Proof.
  destruct (post_treasure_log pg_run new_treasure w) as (r & Hpost & _).
  rewrite Hpost. by eexists _, _.
Qed.

Lemma get_treasures_store sort_by order colour max_age min_age w :
  ∃ r w',
    get_treasures pg_run sort_by order colour max_age min_age w = (r, w')
    ∧ w_db w' = w_db w.
Proof.
  destruct (decide (sort_by ∈ treasures_columns)) as [Hs|Hs];
    [destruct (decide (order ∈ order_options)) as [Ho|Ho]|].
  - destruct (column_of_name_elem _ Hs) as [c Hc].
    destruct (direction_of_name_elem _ Ho) as [dir Hd].
    rewrite (get_treasures_pg _ _ c dir) by done. by eexists _, _.
  - unfold get_treasures.
    rewrite (bool_decide_eq_true_2 _ Hs), (bool_decide_eq_false_2 _ Ho).
    by eexists _, _.
  - unfold get_treasures. rewrite (bool_decide_eq_false_2 _ Hs).
    by eexists _, _.
Qed.

Lemma route_store {A} (status_code : Z) (handler : M A) w :
  w_db (route status_code handler w).2 = w_db (handler w).2.
Proof.
  unfold route. destruct (handler w) as [[body|[]] w']; done.
Qed.

(** X11: no handler writes the shops table: whatever the request, the shops
    after it are the shops before it. *)
Theorem handlers_never_change_shops (w : world) :
  (∀ sort_by order colour max_age min_age,
     shops (w_db (GET_api_treasures pg_run sort_by order colour max_age
                    min_age w).2) = shops (w_db w))
  ∧ (∀ new_treasure,
       shops (w_db (POST_api_treasures pg_run new_treasure w).2)
       = shops (w_db w))
  ∧ (∀ treasure_id new_price,
       shops (w_db (PATCH_api_treasures pg_run treasure_id new_price w).2)
       = shops (w_db w))
  ∧ (∀ treasure_id,
       shops (w_db (DELETE_api_treasures pg_run treasure_id w).2)
       = shops (w_db w))
  ∧ shops (w_db (GET_api_shops pg_run w).2) = shops (w_db w).
Proof.
  split_and!; intros;
    unfold GET_api_treasures, POST_api_treasures, PATCH_api_treasures,
      DELETE_api_treasures, GET_api_shops; rewrite route_store.
  - destruct (get_treasures_store (default "age" sort_by)
                (default "asc" order) colour max_age min_age w)
      as (r & w' & -> & Hdb). cbn [snd]. by rewrite Hdb.
  - destruct (post_treasure_store new_treasure w) as (r & w' & -> & Hdb).
    cbn [snd]. rewrite Hdb. unfold insert_statement, pg_run.
    by case_bool_decide.
  - destruct (patch_treasure_store treasure_id new_price w)
      as (r & w' & -> & [Hdb|Hdb]); cbn [snd]; by rewrite Hdb.
  - rewrite delete_treasure_pg. by case_bool_decide.
  - by rewrite get_shops_pg.
Qed.


Lemma store_ok_insert db name colour age cost sid :
  store_ok db →
  store_ok (pg_run (InsertTreasure name colour age cost sid) db).2.
Proof.
  intros ((Hts & Hss & Hfk) & Hseq). cbn [pg_run].
  case_bool_decide as Hsid; cbn [snd]; (split; [split_and!|]); simpl;
    try done.
  - rewrite fmap_app. apply NoDup_app. split_and!; [done| |by apply NoDup_singleton].
    intros id (x & -> & Hx)%list_elem_of_fmap Hin. simpl in Hin.
    apply list_elem_of_singleton in Hin. apply Hseq in Hx. lia.
  - intros x [Hx| ->%list_elem_of_singleton]%elem_of_app; [by apply Hfk|done].
  - intros x [Hx| ->%list_elem_of_singleton]%elem_of_app;
      [apply Hseq in Hx|simpl]; lia.
  - intros x Hx. apply Hseq in Hx. lia.
Qed.

Lemma store_ok_update db id price :
  store_ok db →
  store_ok
    (mk_database
       ((λ y, if decide (has_id id y) then Treasure.set_cost price y else y)
          <$> treasures db)
       (shops db) (treasure_id_seq db)).
Proof.
  intros ((Hts & Hss & Hfk) & Hseq). split; [split_and!|]; simpl.
  - by rewrite patch_keeps_ids.
  - done.
  - intros x' (x & -> & Hx)%list_elem_of_fmap.
    case_decide; [simpl|]; by apply Hfk.
  - intros x' (x & -> & Hx)%list_elem_of_fmap.
    case_decide; [simpl|]; by apply Hseq.
Qed.

Lemma store_ok_delete db id :
  store_ok db →
  store_ok
    (mk_database (filter (λ x, ¬ has_id id x) (treasures db))
       (shops db) (treasure_id_seq db)).
Proof.
  intros ((Hts & Hss & Hfk) & Hseq). split; [split_and!|]; simpl.
  - eapply sublist_NoDup; [exact Hts|apply fmap_sublist, sublist_filter].
  - done.
  - intros x Hx%list_elem_of_filter. apply Hfk, Hx.
  - intros x Hx%list_elem_of_filter. apply Hseq, Hx.
Qed.

(** X12: every handler keeps the store well formed: if treasure ids and
    shop ids are unique, every treasure references a shop and the id
    sequence is ahead of every stored id, the same holds after any
    request, whatever its outcome. *)
Theorem handlers_keep_store_well_formed (w : world) :
  store_ok (w_db w) →
  (∀ sort_by order colour max_age min_age,
     store_ok (w_db (GET_api_treasures pg_run sort_by order colour max_age
                       min_age w).2))
  ∧ (∀ new_treasure,
       store_ok (w_db (POST_api_treasures pg_run new_treasure w).2))
  ∧ (∀ treasure_id new_price,
       store_ok (w_db (PATCH_api_treasures pg_run treasure_id new_price w).2))
  ∧ (∀ treasure_id,
       store_ok (w_db (DELETE_api_treasures pg_run treasure_id w).2))
  ∧ store_ok (w_db (GET_api_shops pg_run w).2).
Proof.
  intros Hok. split_and!; intros;
    unfold GET_api_treasures, POST_api_treasures, PATCH_api_treasures,
      DELETE_api_treasures, GET_api_shops; rewrite route_store.
  - destruct (get_treasures_store (default "age" sort_by)
                (default "asc" order) colour max_age min_age w)
      as (r & w' & -> & Hdb). cbn [snd]. by rewrite Hdb.
  - destruct (post_treasure_store new_treasure w) as (r & w' & -> & Hdb).
    cbn [snd]. rewrite Hdb. by apply store_ok_insert.
  - destruct (patch_treasure_store treasure_id new_price w)
      as (r & w' & -> & [Hdb|Hdb]); cbn [snd]; rewrite Hdb;
      [done|by apply store_ok_update].
  - rewrite delete_treasure_pg.
    case_bool_decide; cbn [snd w_db]; [by apply store_ok_delete|done].
  - by rewrite get_shops_pg.
Qed.

Lemma post_treasure_pg_created new_treasure w :
  NewTreasure.shop_id new_treasure ∈ (Shop.shop_id <$> shops (w_db w)) →
  ∃ body,
    post_treasure pg_run new_treasure w =
      (Ok body,
       mk_world
         (mk_database
            (treasures (w_db w) ++
               [Treasure.mk (treasure_id_seq (w_db w))
                  (NewTreasure.treasure_name new_treasure)
                  (NewTreasure.colour new_treasure)
                  (NewTreasure.age new_treasure)
                  (NewTreasure.cost_at_auction new_treasure)
                  (NewTreasure.shop_id new_treasure)])
            (shops (w_db w)) (treasure_id_seq (w_db w) + 1))
         (w_log w ++ [Connect; Run (insert_statement new_treasure); Close])).
Proof.
  intros Hid. eexists. eapply post_treasure_accepted.
  unfold insert_statement, pg_run. by rewrite bool_decide_eq_true_2.
Qed.

(** X13: a treasure created by POST shows up in the listing: in a
    well-formed store, the unfiltered GET /api/treasures that follows a
    successful POST has one more record than before, and holds the new
    treasure with its generated id and the name of the shop it references. *)
Theorem post_then_get (new_treasure : NewTreasure.t) (s : Shop.t)
    (w : world) :
  db_wf (w_db w) →
  s ∈ shops (w_db w) →
  Shop.shop_id s = NewTreasure.shop_id new_treasure →
  ∃ body w1 before after wa wb,
    POST_api_treasures pg_run new_treasure w = (Response 201 body, w1)
    ∧ GET_api_treasures pg_run None None None None None w =
        (Response 200 {[ "treasures" := before ]}, wa)
    ∧ GET_api_treasures pg_run None None None None None w1 =
        (Response 200 {[ "treasures" := after ]}, wb)
    ∧ length after = S (length before)
    ∧ ({[ "treasure_id" := VInt (treasure_id_seq (w_db w));
          "treasure_name" := VStr (NewTreasure.treasure_name new_treasure);
          "colour" := VStr (NewTreasure.colour new_treasure);
          "age" := VInt (NewTreasure.age new_treasure);
          "cost_at_auction" :=
            VFloat (NewTreasure.cost_at_auction new_treasure);
          "shop_name" := VStr (Shop.shop_name s) ]} : dict) ∈ after.
Proof.
  intros (Hts & Hss & Hfk) Hs Hsid.
  assert (NewTreasure.shop_id new_treasure
            ∈ (Shop.shop_id <$> shops (w_db w))) as Hin.
  { rewrite <-Hsid. apply list_elem_of_fmap. eauto. }
  unfold POST_api_treasures, GET_api_treasures, route. cbn [default].
  destruct (post_treasure_pg_created new_treasure w Hin) as (body & ->).
  rewrite (get_treasures_pg _ _ CAge Asc) by compute_done.
  eexists _, _, _, _, _, _. split; [done|]. split; [done|].
  rewrite (get_treasures_pg _ _ CAge Asc) by compute_done.
  split; [done|]. split.
  - rewrite !length_fmap.
    rewrite (length_listing_unfiltered _ _ (w_db w)) by done.
    rewrite length_listing_unfiltered; cbn [w_db treasures shops]; [|done|].
    + rewrite length_app. simpl. lia.
    + intros x [Hx| ->%list_elem_of_singleton]%elem_of_app;
        [by apply Hfk|done].
  - apply list_elem_of_fmap.
    exists (Treasure.mk (treasure_id_seq (w_db w))
              (NewTreasure.treasure_name new_treasure)
              (NewTreasure.colour new_treasure)
              (NewTreasure.age new_treasure)
              (NewTreasure.cost_at_auction new_treasure)
              (NewTreasure.shop_id new_treasure), s).
    split; [done|]. apply elem_of_listing. split; [done|].
    apply elem_of_join. cbn [w_db treasures shops fst snd].
    split_and!; [|done|done]. apply elem_of_app. right.
    by apply list_elem_of_singleton.
Qed.

(** X14: create then delete is a round trip on the treasures table: when
    the id sequence is not an id already in use, deleting the treasure a
    successful POST has just created succeeds and leaves the table as it
    was before the POST. *)
Theorem post_then_delete (new_treasure : NewTreasure.t) (w : world) :
  NewTreasure.shop_id new_treasure ∈ (Shop.shop_id <$> shops (w_db w)) →
  treasure_id_seq (w_db w)
    ∉ (Treasure.treasure_id <$> treasures (w_db w)) →
  ∃ body w1 w2,
    POST_api_treasures pg_run new_treasure w = (Response 201 body, w1)
    ∧ body !! "treasure" ≫= (.!! "treasure_id")
        = Some (VInt (treasure_id_seq (w_db w)))
    ∧ DELETE_api_treasures pg_run (treasure_id_seq (w_db w)) w1 =
        (Response 204 (), w2)
    ∧ treasures (w_db w2) = treasures (w_db w)
    ∧ shops (w_db w2) = shops (w_db w).
Proof.
  intros Hin Hfresh. unfold POST_api_treasures, DELETE_api_treasures, route.
  erewrite post_treasure_accepted; last first.
  { unfold insert_statement, pg_run. by rewrite bool_decide_eq_true_2. }
  eexists _, _, _. split; [done|]. split; [done|].
  rewrite delete_treasure_pg. cbn [w_db treasures shops].
  rewrite bool_decide_eq_true_2; last first.
  { rewrite fmap_app. apply elem_of_app. right. simpl.
    by apply list_elem_of_singleton. }
  split_and!; [done| |done].
  cbn [w_db treasures]. rewrite filter_app.
  rewrite filter_not_has_id_all by done.
  rewrite filter_cons_False, filter_nil; [by rewrite app_nil_r|].
  by intros [].
Qed.

(** X15: a DELETE repeated on the same id always fails: whatever the first
    DELETE did, the second one raises the [ValueError] and leaves the store
    as the first one left it. *)
Theorem delete_treasure_twice (treasure_id : Z) (w : world) :
  ∃ w2,
    DELETE_api_treasures pg_run treasure_id
      (DELETE_api_treasures pg_run treasure_id w).2 =
      (Unhandled (ValueError
         [FLit ("There is no treasure with id " +:+ str_int treasure_id)]),
       w2)
    ∧ w_db w2 = w_db (DELETE_api_treasures pg_run treasure_id w).2.
Proof.
  unfold DELETE_api_treasures, route. rewrite (delete_treasure_pg _ w).
  case_bool_decide as Hid; cbn [snd]; rewrite delete_treasure_pg;
    cbn [w_db treasures].
  - rewrite bool_decide_eq_false_2; [by eexists|].
    intros (x & -> & Hx)%list_elem_of_fmap.
    apply list_elem_of_filter in Hx as [Hx _]. by apply Hx.
  - rewrite bool_decide_eq_false_2 by done. by eexists.
Qed.

(** X16: the detail of the 422 of GET /api/treasures quotes the offending
    parameter, and [sort_by] is checked first: an invalid [sort_by] is
    reported even when [order] is invalid too. *)
Theorem get_treasures_invalid_detail run (sort_by order : string)
    (colour : option string) (max_age min_age : option Z) (w : world) :
  (sort_by ∉ treasures_columns →
   GET_api_treasures run (Some sort_by) (Some order) colour max_age min_age w
   = (ErrorResponse 422 ("Invalid sort field: " +:+ sort_by), w))
  ∧ (sort_by ∈ treasures_columns → order ∉ order_options →
     GET_api_treasures run (Some sort_by) (Some order) colour max_age min_age
       w
     = (ErrorResponse 422 ("Invalid order field: " +:+ order), w)).
Proof.
  unfold GET_api_treasures, route, get_treasures. cbn [default]. split.
  - intros Hs. by rewrite (bool_decide_eq_false_2 _ Hs).
  - intros Hs Ho.
    by rewrite (bool_decide_eq_true_2 _ Hs), (bool_decide_eq_false_2 _ Ho).
Qed.

Lemma example_db_wf : db_wf example_db.
Proof.
  split_and!; [compute_done..|].
  intros x Hx. apply (bool_decide_unpack _).
  repeat (apply elem_of_cons in Hx as [->|Hx]; [compute_done|]).
  by apply elem_of_nil in Hx.
Qed.

Lemma example_store_ok : store_ok example_db.
Proof.
  split; [apply example_db_wf|].
  intros x Hx.
  repeat (apply elem_of_cons in Hx as [->|Hx]; [compute_done|]).
  by apply elem_of_nil in Hx.
Qed.

Lemma get_treasures_count_witness :
  ∃ data w',
    GET_api_treasures pg_run (Some "shop_name") None None None None
      example_world = (Response 200 {[ "treasures" := data ]}, w')
    ∧ length data = 3%nat.
Proof.
  destruct (get_treasures_count (Some "shop_name") None None None None
              example_world)
    as (data & w' & Hget & _ & Hall);
    [compute_done|compute_done|apply example_db_wf|].
  exists data, w'. split; [exact Hget|]. by rewrite Hall.
Defined.

Lemma get_treasures_sort_only_reorders_witness :
  ∃ data data' w1 w2,
    GET_api_treasures pg_run (Some "age") (Some "asc") (Some "silver") None
      None example_world = (Response 200 {[ "treasures" := data ]}, w1)
    ∧ GET_api_treasures pg_run (Some "cost_at_auction") (Some "desc")
        (Some "silver") None None example_world =
        (Response 200 {[ "treasures" := data' ]}, w2)
    ∧ data ≡ₚ data'.
Proof.
  apply (get_treasures_sort_only_reorders "age" "asc" "cost_at_auction"
           "desc" (Some "silver") None None example_world); compute_done.
Defined.

Lemma patch_treasure_changes_price_only_witness :
  ∃ w',
    PATCH_api_treasures pg_run 1 (NewPrice.mk (5 # 1)) example_world =
      (Response 204 (), w')
    ∧ Treasure.treasure_name <$> treasures (w_db w')
        = ["Ring"; "Coin"; "Fork"]
    ∧ shops (w_db w') = shops example_db.
Proof.
  destruct (patch_treasure_changes_price_only example_world
              (Treasure.mk 1 "Ring" "gold" 5 (20 # 1) 1)
              (NewPrice.mk (5 # 1)))
    as (w' & Hpatch & _ & Hnames & _ & _ & _ & _ & Hshops & _);
    [compute_done|apply list_elem_of_here|reflexivity|].
  exists w'. split_and!; [exact Hpatch|exact Hnames|exact Hshops].
Defined.

Lemma handlers_keep_store_well_formed_witness :
  store_ok
    (w_db (POST_api_treasures pg_run
             (NewTreasure.mk "Steel Computer" "steel" 24 (666 # 1) 1)
             example_world).2)
  ∧ store_ok (w_db (DELETE_api_treasures pg_run 2 example_world).2).
Proof.
  destruct (handlers_keep_store_well_formed example_world example_store_ok)
    as (_ & Hpost & _ & Hdelete & _).
  split; [apply Hpost|apply Hdelete].
Defined.

Lemma post_then_get_witness :
  ∃ body w1 before after wa wb,
    POST_api_treasures pg_run
      (NewTreasure.mk "Steel Computer" "steel" 24 (666 # 1) 2) example_world
      = (Response 201 body, w1)
    ∧ GET_api_treasures pg_run None None None None None example_world =
        (Response 200 {[ "treasures" := before ]}, wa)
    ∧ GET_api_treasures pg_run None None None None None w1 =
        (Response 200 {[ "treasures" := after ]}, wb)
    ∧ length after = S (length before)
    ∧ ({[ "treasure_id" := VInt 4;
          "treasure_name" := VStr "Steel Computer";
          "colour" := VStr "steel";
          "age" := VInt 24;
          "cost_at_auction" := VFloat (666 # 1);
          "shop_name" := VStr "Beta" ]} : dict) ∈ after.
Proof.
  apply (post_then_get
           (NewTreasure.mk "Steel Computer" "steel" 24 (666 # 1) 2)
           (Shop.mk 2 "Beta" "b") example_world).
  - apply example_db_wf.
  - apply list_elem_of_further, list_elem_of_here.
  - reflexivity.
Defined.

Lemma post_then_delete_witness :
  ∃ body w1 w2,
    POST_api_treasures pg_run
      (NewTreasure.mk "Steel Computer" "steel" 24 (666 # 1) 1) example_world
      = (Response 201 body, w1)
    ∧ DELETE_api_treasures pg_run 4 w1 = (Response 204 (), w2)
    ∧ treasures (w_db w2) = treasures example_db.
Proof.
  destruct (post_then_delete
              (NewTreasure.mk "Steel Computer" "steel" 24 (666 # 1) 1)
              example_world)
    as (body & w1 & w2 & Hpost & _ & Hdel & Hts & _); [compute_done..|].
  exists body, w1, w2. split_and!; [exact Hpost|exact Hdel|exact Hts].
Defined.

Lemma get_treasures_invalid_detail_witness :
  GET_api_treasures pg_run (Some "cost") (Some "dsc") None None None
    example_world =
    (ErrorResponse 422 "Invalid sort field: cost", example_world)
  ∧ GET_api_treasures pg_run (Some "age") (Some "dsc") None None None
      example_world =
      (ErrorResponse 422 "Invalid order field: dsc", example_world).
Proof.
  split.
  - apply (get_treasures_invalid_detail pg_run "cost" "dsc" None None None
             example_world). compute_done.
  - apply (get_treasures_invalid_detail pg_run "age" "dsc" None None None
             example_world); compute_done.
Defined.

(** X17: an updated price shows up in the listing: in a well-formed store,
    the unfiltered GET /api/treasures that follows a successful PATCH has
    as many records as before and holds the treasure with the new price. *)
Theorem patch_then_get (w : world) (x : Treasure.t) (s : Shop.t)
    (new_price : NewPrice.t) :
  db_wf (w_db w) →
  x ∈ treasures (w_db w) →
  s ∈ shops (w_db w) →
  Treasure.shop_id x = Shop.shop_id s →
  (NewPrice.cost_at_auction new_price < Treasure.cost_at_auction x)%Q →
  ∃ w1 before after wa wb,
    PATCH_api_treasures pg_run (Treasure.treasure_id x) new_price w =
      (Response 204 (), w1)
    ∧ GET_api_treasures pg_run None None None None None w =
        (Response 200 {[ "treasures" := before ]}, wa)
    ∧ GET_api_treasures pg_run None None None None None w1 =
        (Response 200 {[ "treasures" := after ]}, wb)
    ∧ length after = length before
    ∧ joined_to_dict
        (Treasure.set_cost (NewPrice.cost_at_auction new_price) x, s)
        ∈ after.
Proof.
  intros (Hts & Hss & Hfk) Hx Hs Hsid Hlt.
  unfold PATCH_api_treasures, GET_api_treasures, route. cbn [default].
  rewrite patch_treasure_found by done.
  destruct (Qle_bool _ _) eqn:Hle.
  { apply Qle_bool_iff in Hle. by apply Qlt_not_le in Hlt. }
  rewrite (get_treasures_pg _ _ CAge Asc) by compute_done.
  eexists _, _, _, _, _. split; [done|]. split; [done|].
  rewrite (get_treasures_pg _ _ CAge Asc) by compute_done.
  split; [done|].
  assert (∀ y, y ∈ ((λ y, if decide (has_id (Treasure.treasure_id x) y)
                         then Treasure.set_cost
                                (NewPrice.cost_at_auction new_price) y
                         else y) <$> treasures (w_db w)) →
               Treasure.shop_id y ∈ (Shop.shop_id <$> shops (w_db w)))
    as Hfk'.
  { intros y' (y & -> & Hy)%list_elem_of_fmap.
    case_decide; [simpl|]; by apply Hfk. }
  split.
  - rewrite !length_fmap.
    rewrite (length_listing_unfiltered _ _ (w_db w)) by done.
    rewrite length_listing_unfiltered by done.
    cbn [w_db treasures]. by rewrite length_fmap.
  - apply list_elem_of_fmap. eexists. split; [done|].
    apply elem_of_listing. split; [done|].
    apply elem_of_join. cbn [w_db treasures shops fst snd].
    split_and!; [|done|done].
    apply list_elem_of_fmap. exists x. split; [|done].
    by rewrite decide_True.
Qed.

Lemma patch_then_get_witness :
  ∃ w1 before after wa wb,
    PATCH_api_treasures pg_run 1 (NewPrice.mk (5 # 1)) example_world =
      (Response 204 (), w1)
    ∧ GET_api_treasures pg_run None None None None None example_world =
        (Response 200 {[ "treasures" := before ]}, wa)
    ∧ GET_api_treasures pg_run None None None None None w1 =
        (Response 200 {[ "treasures" := after ]}, wb)
    ∧ length after = length before
    ∧ joined_to_dict
        (Treasure.mk 1 "Ring" "gold" 5 (5 # 1) 1, Shop.mk 1 "Alpha" "a")
        ∈ after.
Proof.
  apply (patch_then_get example_world
           (Treasure.mk 1 "Ring" "gold" 5 (20 # 1) 1)
           (Shop.mk 1 "Alpha" "a") (NewPrice.mk (5 # 1))).
  - apply example_db_wf.
  - apply list_elem_of_here.
  - apply list_elem_of_here.
  - reflexivity.
  - reflexivity.
Defined.

(** X18: a deleted treasure is gone from every listing: after a DELETE on
    an id, no record of any valid GET /api/treasures carries that
    [treasure_id]. *)
Theorem delete_then_get (treasure_id : Z)
    (sort_by order colour : option string) (max_age min_age : option Z)
    (w : world) :
  default "age" sort_by ∈ treasures_columns →
  default "asc" order ∈ order_options →
  ∃ data w2,
    GET_api_treasures pg_run sort_by order colour max_age min_age
      (DELETE_api_treasures pg_run treasure_id w).2 =
      (Response 200 {[ "treasures" := data ]}, w2)
    ∧ ∀ d : dict, d ∈ data → d !! "treasure_id" ≠ Some (VInt treasure_id).
Proof.
  intros Hs Ho. unfold GET_api_treasures, route at 1.
  destruct (column_of_name_elem _ Hs) as [c Hc].
  destruct (direction_of_name_elem _ Ho) as [dir Hd].
  rewrite (get_treasures_pg _ _ c dir) by done.
  eexists _, _. split; [done|].
  intros d ([x s] & -> & Hp)%list_elem_of_fmap.
  apply elem_of_listing in Hp as [_ Hp].
  apply elem_of_join in Hp as (Hx & _ & _). cbn [fst] in Hx.
  change (joined_to_dict (x, s) !! "treasure_id")
    with (Some (VInt (Treasure.treasure_id x))).
  intros [= Hid]. revert Hx.
  unfold DELETE_api_treasures. rewrite route_store, delete_treasure_pg.
  case_bool_decide as Hin; cbn [snd w_db treasures].
  - intros [Hne _]%list_elem_of_filter. by apply Hne.
  - intros Hx. apply Hin. rewrite <-Hid. apply list_elem_of_fmap. eauto.
Qed.

Lemma delete_then_get_witness :
  ∃ data w2,
    GET_api_treasures pg_run None (Some "desc") None None None
      (DELETE_api_treasures pg_run 2 example_world).2 =
      (Response 200 {[ "treasures" := data ]}, w2)
    ∧ ∀ d : dict, d ∈ data → d !! "treasure_id" ≠ Some (VInt 2).
Proof.
  apply (delete_then_get 2 None (Some "desc") None None None example_world);
    compute_done.
Defined.
